(** * dary-business-utils: DAR token arithmetic and B2B validation helpers

    A shallow embedding of the two TypeScript modules of the library (the DAR
    token utilities and [validation.ts]) together with the properties stated
    about them.

    Numbers.  A JavaScript number is modelled by [number]: an exact rational,
    or one of the three special values NaN, +Infinity and -Infinity.  The
    arithmetic is the real-number arithmetic that binary64 approximates; the
    rounding of binary64 operations and the sign of zero are outside the
    model.  The concrete inputs used below are ones on which binary64
    arithmetic gives the same outcome.

    Strings.  A JavaScript string is a sequence of UTF-16 code units
    ([jsstring]).

    Host.  What the program obtains from its host environment (Unicode case
    mapping, [Date.parse], [Number::toString], the default-locale number
    format) is taken as a parameter, see [Host]. *)

From Stdlib Require Import ZArith NArith QArith Qround Qabs.
From Stdlib Require Import List Bool Lia ZifyNat ZifyN Lqa String Ascii.
Import ListNotations.

Set Implicit Arguments.
Local Open Scope Q_scope.

(* ================================================================= *)
(** ** JavaScript numbers *)

Inductive number : Type :=
| Fin (q : Q)
| PosInf
| NegInf
| NaN.

Definition Qlt_bool (x y : Q) : bool := negb (Qle_bool y x).

Module Num.

Definition of_Z (z : Z) : number := Fin (inject_Z z).

(** [a < b] *)
Definition lt (a b : number) : bool :=
  match a, b with
  | NaN, _ | _, NaN => false
  | Fin x, Fin y => Qlt_bool x y
  | Fin _, PosInf => true
  | Fin _, NegInf => false
  | PosInf, _ => false
  | NegInf, NegInf => false
  | NegInf, _ => true
  end.

(** [a <= b] *)
Definition le (a b : number) : bool :=
  match a, b with
  | NaN, _ | _, NaN => false
  | Fin x, Fin y => Qle_bool x y
  | Fin _, PosInf => true
  | Fin _, NegInf => false
  | PosInf, PosInf => true
  | PosInf, _ => false
  | NegInf, _ => true
  end.

(** [a > b] and [a >= b] *)
Definition gt (a b : number) : bool := lt b a.
Definition ge (a b : number) : bool := le b a.

Definition neg (a : number) : number :=
  match a with
  | Fin x => Fin (- x)
  | PosInf => NegInf
  | NegInf => PosInf
  | NaN => NaN
  end.

(** The infinity with the sign of [x], for [x] not zero. *)
Definition inf_of_sign (x : Q) : number :=
  if Qlt_bool 0 x then PosInf else NegInf.

(** [a * b]: an infinity times zero is NaN. *)
Definition mul (a b : number) : number :=
  match a, b with
  | NaN, _ | _, NaN => NaN
  | Fin x, Fin y => Fin (x * y)
  | Fin x, PosInf | PosInf, Fin x =>
      if Qeq_bool x 0 then NaN else inf_of_sign x
  | Fin x, NegInf | NegInf, Fin x =>
      if Qeq_bool x 0 then NaN else neg (inf_of_sign x)
  | PosInf, PosInf | NegInf, NegInf => PosInf
  | PosInf, NegInf | NegInf, PosInf => NegInf
  end.

(** [a / b]: zero over zero and infinity over infinity are NaN; a non-zero
    finite value over zero is the infinity of its sign (the zero divisor is
    taken as the positive zero). *)
Definition div (a b : number) : number :=
  match a, b with
  | NaN, _ | _, NaN => NaN
  | Fin x, Fin y =>
      if Qeq_bool y 0
      then (if Qeq_bool x 0 then NaN else inf_of_sign x)
      else Fin (x / y)
  | Fin _, PosInf | Fin _, NegInf => Fin 0
  | PosInf, Fin y => if Qlt_bool y 0 then NegInf else PosInf
  | NegInf, Fin y => if Qlt_bool y 0 then PosInf else NegInf
  | PosInf, _ | NegInf, _ => NaN
  end.

(** [a - b] *)
Definition sub (a b : number) : number :=
  match a, b with
  | NaN, _ | _, NaN => NaN
  | Fin x, Fin y => Fin (x - y)
  | Fin _, PosInf => NegInf
  | Fin _, NegInf => PosInf
  | PosInf, PosInf | NegInf, NegInf => NaN
  | PosInf, _ => PosInf
  | NegInf, _ => NegInf
  end.

(** [Math.floor] and [Math.ceil] *)
Definition floor (a : number) : number :=
  match a with
  | Fin x => of_Z (Qfloor x)
  | _ => a
  end.

Definition ceil (a : number) : number :=
  match a with
  | Fin x => of_Z (Qceiling x)
  | _ => a
  end.

(** [Number.isInteger] *)
Definition isInteger (a : number) : bool :=
  match a with
  | Fin x => Qeq_bool (inject_Z (Qfloor x)) x
  | _ => false
  end.

(** [isNaN] *)
Definition isNaN (a : number) : bool :=
  match a with
  | NaN => true
  | _ => false
  end.

(** [q] rounded to [fd] decimals, ties away from zero: the integer closest
    to the magnitude times 10^fd, the larger one on a tie as toFixed picks
    it, over 10^fd and with the sign of [q]. *)
Definition round_decimals (fd : nat) (q : Q) : Q :=
  let p := inject_Z (10 ^ Z.of_nat fd) in
  let n := Qfloor (Qabs q * p + (1 # 2)) in
  let m := inject_Z n / p in
  if Qlt_bool q 0 then - m else m.

(** [parseFloat(a.toFixed(fd))] as one operation on values.  Below 10^21
    toFixed writes the rounded value and [parseFloat] reads it back (lemma
    [parseFloat_toFixed_2] derives this from the two functions on strings
    for [fd = 2]); from 10^21 on, and for NaN and the infinities, toFixed
    returns the string of the number itself, which reads back as the same
    number. *)
Definition parseFloat_toFixed (fd : nat) (a : number) : number :=
  match a with
  | Fin x =>
      if Qle_bool (inject_Z (10 ^ 21)) (Qabs x) then Fin x
      else Fin (round_decimals fd x)
  | _ => a
  end.

End Num.

(** Default parameter values: the default applies when the argument is
    absent ([undefined]). *)
Definition dflt {A : Type} (d : A) (o : option A) : A :=
  match o with
  | Some a => a
  | None => d
  end.

(* ================================================================= *)
(** ** JavaScript strings *)

(** A string is a sequence of UTF-16 code units. *)
Definition jsstring : Type := list N.

Definition unit_of_ascii (a : ascii) : N := N_of_ascii a.

(** The code units of a literal of the source (all literals are ASCII). *)
Definition lit (s : string) : jsstring :=
  map unit_of_ascii (list_ascii_of_string s).

Arguments unit_of_ascii a%_char.
Arguments lit s%_string.

Fixpoint jsstring_eqb (s t : jsstring) : bool :=
  match s, t with
  | [], [] => true
  | c :: s', d :: t' => N.eqb c d && jsstring_eqb s' t'
  | _, _ => false
  end.

(** A code unit range [lo-hi] of a character class, both ends included. *)
Definition in_range (c : N) (r : N * N) : bool :=
  (N.leb (fst r) c && N.leb c (snd r))%bool.

Definition in_class (cls : list (N * N)) (c : N) : bool :=
  existsb (in_range c) cls.

Definition rng (lo hi : ascii) : N * N := (unit_of_ascii lo, unit_of_ascii hi).
Definition chr (a : ascii) : N * N := (unit_of_ascii a, unit_of_ascii a).

Arguments rng (lo hi)%_char.
Arguments chr a%_char.

(** The class [\s], which is also what [trim] removes: WhiteSpace (TAB, VT,
    FF, ZWNBSP, and the space separators SP, NBSP, U+1680, U+2000..U+200A,
    U+202F, U+205F, U+3000) and LineTerminator (LF, CR, LS, PS). *)
Definition class_s : list (N * N) :=
  [ (9, 13); (32, 32); (160, 160); (5760, 5760); (8192, 8202);
    (8232, 8233); (8239, 8239); (8287, 8287); (12288, 12288);
    (65279, 65279) ]%N.

(** The class [\d]. *)
Definition class_d : list (N * N) := [ rng "0" "9" ].

Definition is_whitespace (c : N) : bool := in_class class_s c.
Definition is_digit (c : N) : bool := in_class class_d c.

Fixpoint trimStart (s : jsstring) : jsstring :=
  match s with
  | c :: s' => if is_whitespace c then trimStart s' else s
  | [] => []
  end.

Definition trimEnd (s : jsstring) : jsstring := rev (trimStart (rev s)).

(** [s.trim()] *)
Definition trim (s : jsstring) : jsstring := trimEnd (trimStart s).

(** [s.replace(/\s/g, '')]: every code unit of the class is deleted. *)
Definition remove_whitespace (s : jsstring) : jsstring :=
  filter (fun c => negb (is_whitespace c)) s.

(** [s.split(sep)] for a separator of one code unit. *)
Fixpoint split (sep : N) (s : jsstring) : list jsstring :=
  match s with
  | [] => [[]]
  | c :: s' =>
      if N.eqb c sep then [] :: split sep s'
      else match split sep s' with
           | h :: t => (c :: h) :: t
           | [] => [[c]]
           end
  end.

(** [xs.includes(x)], where [x] may be [undefined] ([None]). *)
Definition includes (xs : list jsstring) (x : option jsstring) : bool :=
  match x with
  | Some s => existsb (jsstring_eqb s) xs
  | None => false
  end.

(* ----------------------------------------------------------------- *)
(** *** Regular expressions *)

(** The fragment of the pattern language the program uses: classes,
    sequencing and repetition.  [Void] and [Alt] arise from derivatives. *)
Inductive regex : Type :=
| Void
| Eps
| Class (cls : list (N * N))
| Seq (r1 r2 : regex)
| Alt (r1 r2 : regex)
| Star (r : regex).

(** [r+], [r{n}] and [r{n,}] *)
Definition Plus (r : regex) : regex := Seq r (Star r).

Fixpoint Times (n : nat) (r : regex) : regex :=
  match n with
  | O => Eps
  | S n' => Seq r (Times n' r)
  end.

Definition AtLeast (n : nat) (r : regex) : regex := Seq (Times n r) (Star r).

(** A literal string of the pattern. *)
Fixpoint Lit (s : list ascii) : regex :=
  match s with
  | [] => Eps
  | a :: s' => Seq (Class [chr a]) (Lit s')
  end.

Fixpoint nullable (r : regex) : bool :=
  match r with
  | Void => false
  | Eps => true
  | Class _ => false
  | Seq r1 r2 => nullable r1 && nullable r2
  | Alt r1 r2 => nullable r1 || nullable r2
  | Star _ => true
  end.

Fixpoint deriv (c : N) (r : regex) : regex :=
  match r with
  | Void => Void
  | Eps => Void
  | Class cls => if in_class cls c then Eps else Void
  | Seq r1 r2 =>
      if nullable r1 then Alt (Seq (deriv c r1) r2) (deriv c r2)
      else Seq (deriv c r1) r2
  | Alt r1 r2 => Alt (deriv c r1) (deriv c r2)
  | Star r1 => Seq (deriv c r1) (Star r1)
  end.

(** [/^r$/.test(s)]: with both anchors and no flags the test decides whether
    the whole of [s] is in the language of [r]. *)
Fixpoint regex_test (r : regex) (s : jsstring) : bool :=
  match s with
  | [] => nullable r
  | c :: s' => regex_test (deriv c r) s'
  end.

(** The words of a pattern, for stating what a test accepts. *)
Inductive lang : regex -> jsstring -> Prop :=
| lang_eps : lang Eps []
| lang_class cls c : in_class cls c = true -> lang (Class cls) [c]
| lang_seq r1 r2 s1 s2 : lang r1 s1 -> lang r2 s2 -> lang (Seq r1 r2) (s1 ++ s2)
| lang_alt_l r1 r2 s : lang r1 s -> lang (Alt r1 r2) s
| lang_alt_r r1 r2 s : lang r2 s -> lang (Alt r1 r2) s
| lang_star_nil r : lang (Star r) []
| lang_star_app r s1 s2 :
    lang r s1 -> lang (Star r) s2 -> lang (Star r) (s1 ++ s2).

(* ----------------------------------------------------------------- *)
(** *** Decimal digits *)

Definition digit_unit (d : N) : N := (48 + d)%N.

Fixpoint digits_fuel (fuel : nat) (n : N) (acc : jsstring) : jsstring :=
  match fuel with
  | O => acc
  | S fuel' =>
      let acc' := digit_unit (n mod 10) :: acc in
      if N.eqb (n / 10) 0 then acc' else digits_fuel fuel' (n / 10) acc'
  end.

(** The decimal digits of [n], most significant first; ["0"] for zero. *)
Definition digits (n : N) : jsstring :=
  digits_fuel (S (N.to_nat (N.log2 n))) n [].

(** The number written by a string of decimal digits. *)
Definition digits_value (s : jsstring) : N :=
  fold_left (fun acc c => (10 * acc + (c - 48))%N) s 0%N.

(* ----------------------------------------------------------------- *)
(** *** parseFloat *)

(** The empty string. *)
Definition is_empty (s : jsstring) : bool :=
  match s with
  | [] => true
  | _ => false
  end.

(** The longest prefix of decimal digits, and the rest. *)
Fixpoint span_digits (s : jsstring) : jsstring * jsstring :=
  match s with
  | c :: s' =>
      if is_digit c
      then let (ds, rest) := span_digits s' in (c :: ds, rest)
      else ([], s)
  | [] => ([], [])
  end.

Fixpoint starts_with (p s : jsstring) : bool :=
  match p, s with
  | [], _ => true
  | c :: p', d :: s' => N.eqb c d && starts_with p' s'
  | _ :: _, [] => false
  end.

(** An optional sign. *)
Definition parse_sign (s : jsstring) : bool * jsstring :=
  match s with
  | c :: s' =>
      if N.eqb c (unit_of_ascii "-") then (true, s')
      else if N.eqb c (unit_of_ascii "+") then (false, s')
      else (false, s)
  | [] => (false, s)
  end.

(** The exponent part [e], [e+] or [e-] followed by digits; 0 when there is
    none. *)
Definition parse_exponent (s : jsstring) : Z :=
  match s with
  | c :: s' =>
      if N.eqb c (unit_of_ascii "e") || N.eqb c (unit_of_ascii "E") then
        let (neg, s'') := parse_sign s' in
        let (ds, _) := span_digits s'' in
        if is_empty ds then 0%Z
        else if neg then (- Z.of_N (digits_value ds))%Z
             else Z.of_N (digits_value ds)
      else 0%Z
  | [] => 0%Z
  end.

(** The magnitude written by the longest prefix that is a decimal literal:
    [Infinity], or digits with an optional fraction and exponent; NaN when
    there is no such prefix. *)
Definition parse_decimal (neg : bool) (s : jsstring) : number :=
  if starts_with (lit "Infinity") s then (if neg then NegInf else PosInf)
  else
    let (ip, s1) := span_digits s in
    let (fp, s2) :=
      match s1 with
      | c :: s' =>
          if N.eqb c (unit_of_ascii ".") then span_digits s' else ([], s1)
      | [] => ([], s1)
      end in
    if is_empty ip && is_empty fp then NaN
    else
      let m := inject_Z (Z.of_N (digits_value ip))
               + inject_Z (Z.of_N (digits_value fp))
                 / inject_Z (10 ^ Z.of_nat (List.length fp)) in
      let v := m * Qpower 10 (parse_exponent s2) in
      Fin (if neg then - v else v).

(** [parseFloat(s)] *)
Definition parseFloat (s : jsstring) : number :=
  let (neg, s') := parse_sign (trimStart s) in
  parse_decimal neg s'.

(** [s.padStart(n, '0')] *)
Definition pad_zeros (n : nat) (s : jsstring) : jsstring :=
  repeat (unit_of_ascii "0") (n - List.length s) ++ s.

(* ================================================================= *)
(** ** Completions: a call returns normally or throws *)

Inductive exn : Type :=
| RangeError (msg : jsstring).

Inductive completion (A : Type) : Type :=
| Normal (a : A)
| Throw (e : exn).

Arguments Normal {A} a.
Arguments Throw {A} e.

Definition bind {A B : Type} (c : completion A) (k : A -> completion B)
  : completion B :=
  match c with
  | Normal a => k a
  | Throw e => Throw e
  end.

(* ================================================================= *)
(** ** DAR token economy utilities *)

Definition DEFAULT_DAR_EUR_RATE : number := Fin (1 # 100).

Definition darToEur (darAmount : number) (rate : option number)
  : completion number :=
  let rate := dflt DEFAULT_DAR_EUR_RATE rate in
  if Num.lt darAmount (Fin 0)
  then Throw (RangeError (lit "DAR amount must be non-negative"))
  else Normal (Num.parseFloat_toFixed 2 (Num.mul darAmount rate)).

Definition eurToDar (eurAmount : number) (rate : option number)
  : completion number :=
  let rate := dflt DEFAULT_DAR_EUR_RATE rate in
  if Num.lt eurAmount (Fin 0)
  then Throw (RangeError (lit "EUR amount must be non-negative"))
  else Normal (Num.floor (Num.div eurAmount rate)).

(** The tier table of [calcReferralReward]; a tier that is not a key of the
    table has percentage 0. *)
Definition tierPercentages : list (Z * Q) :=
  [ (1%Z, 1); (2%Z, (30 # 100)); (3%Z, (10 # 100)) ].

Definition tier_lookup (tier : number) : option Q :=
  match tier with
  | Fin t =>
      option_map snd
        (find (fun kv => Qeq_bool t (inject_Z (fst kv))) tierPercentages)
  | _ => None
  end.

Definition calcReferralReward (tier baseDar : number) : number :=
  let percentage := dflt 0 (tier_lookup tier) in
  Num.floor (Num.mul baseDar (Fin percentage)).

Definition hasSufficientDar (balance required : number)
  (includeBuffer : option bool) : bool :=
  let includeBuffer := dflt false includeBuffer in
  let threshold :=
    if includeBuffer then Num.mul required (Fin (11 # 10)) else required in
  Num.ge balance threshold.

Record CampaignBudget : Type := {
  minBudget : number;
  recommendedBudget : number;
  maxBudget : number
}.

Definition calcCampaignBudget (giftCostDar estimatedLeads : number)
  (conversionRate : option number) : CampaignBudget :=
  let conversionRate := dflt (Fin (15 # 100)) conversionRate in
  let expectedGifts := Num.ceil (Num.mul estimatedLeads conversionRate) in
  {| minBudget := Num.mul expectedGifts giftCostDar;
     recommendedBudget :=
       Num.ceil (Num.mul (Num.mul expectedGifts giftCostDar) (Fin (12 # 10)));
     maxBudget := Num.mul estimatedLeads giftCostDar |}.


(* ================================================================= *)
(** ** The host environment *)

(** What the program takes from its host: the Unicode case mappings of
    strings, [Date.parse] (the time value in milliseconds, or [None] for
    NaN), [Number::toString] on finite values, and [toLocaleString] of a
    number in the default locale. *)
Class Host : Type := {
  String_toLowerCase : jsstring -> jsstring;
  String_toUpperCase : jsstring -> jsstring;
  Date_parse : jsstring -> option Z;
  Number_toString : Q -> jsstring;
  Number_toLocaleString : number -> jsstring
}.

(** On a string of Basic Latin code units [toLowerCase] maps [A-Z] to [a-z]
    and leaves the rest. *)
Definition lower_unit (c : N) : N :=
  if in_range c (rng "A" "Z") then (c + 32)%N else c.

Definition is_basic_latin (c : N) : bool := N.ltb c 128.

Definition lower_basic_latin (H : Host) : Prop :=
  forall s, forallb is_basic_latin s = true ->
            String_toLowerCase s = map lower_unit s.

(* ----------------------------------------------------------------- *)
(** *** Dates *)

(** A Date object holds a time value: milliseconds since the epoch, or
    [None] for the NaN of an invalid date. *)
Definition Date : Type := option Z.

Definition TimeClip (t : option Z) : Date :=
  match t with
  | Some z => if Z.ltb 8640000000000000 (Z.abs z) then None else Some z
  | None => None
  end.

Inductive DateOrString : Type :=
| OfDate (d : Date)
| OfString (s : jsstring).

Definition getTime (d : Date) : number :=
  match d with
  | Some z => Num.of_Z z
  | None => NaN
  end.

Section WithHost.

Context {H : Host}.

(** [new Date(value)] *)
Definition new_Date (v : DateOrString) : Date :=
  match v with
  | OfDate d => d
  | OfString s => TimeClip (Date_parse s)
  end.

(** The string of a number in a template literal. *)
Definition ToString (x : number) : jsstring :=
  match x with
  | Fin q => Number_toString q
  | PosInf => lit "Infinity"
  | NegInf => lit "-Infinity"
  | NaN => lit "NaN"
  end.

(* --------------------------------------------------------------- *)
(** *** Number formatting *)

(** [x.toFixed(fd)]: the sign, then, below 10^21, the integer [n] closest
    to the magnitude times 10^fd (the larger one on a tie) written with
    [fd] digits after the point; from 10^21 on the string of the number. *)
Definition toFixed (fd : nat) (x : number) : jsstring :=
  match x with
  | Fin q =>
      let s := if Qlt_bool q 0 then lit "-" else [] in
      let a := Qabs q in
      let m :=
        if Qle_bool (inject_Z (10 ^ 21)) a then ToString (Fin a)
        else
          let n := Z.to_N (Qfloor (a * inject_Z (10 ^ Z.of_nat fd) + (1 # 2))) in
          let m := digits n in
          match fd with
          | O => m
          | _ =>
              let m := pad_zeros (fd + 1) m in
              let k := List.length m in
              firstn (k - fd) m ++ lit "." ++ skipn (k - fd) m
          end in
      s ++ m
  | _ => ToString x
  end.

(** Digit grouping of the en-US locale on the reversed integer digits. *)
Fixpoint group_rev (ds : jsstring) : jsstring :=
  match ds with
  | a :: b :: c :: ((_ :: _) as rest) =>
      a :: b :: c :: unit_of_ascii "," :: group_rev rest
  | _ => ds
  end.

Definition group_thousands (ds : jsstring) : jsstring :=
  rev (group_rev (rev ds)).

Definition strip_trailing_zeros (s : jsstring) : jsstring :=
  let fix strip (r : jsstring) : jsstring :=
    match r with
    | c :: r' => if N.eqb c (unit_of_ascii "0") then strip r' else r
    | [] => []
    end in
  rev (strip (rev s)).

(** [x.toLocaleString('en-US')]: decimal style, at most three fraction
    digits (ties away from zero), no trailing zeros, groups of three. *)
Definition toLocaleString_enUS (x : number) : jsstring :=
  match x with
  | Fin q =>
      let s := if Qlt_bool q 0 then lit "-" else [] in
      let n := Z.to_N (Qfloor (Qabs q * 1000 + (1 # 2))) in
      let ip := (n / 1000)%N in
      let fp := (n mod 1000)%N in
      s ++ group_thousands (digits ip)
        ++ (if N.eqb fp 0 then []
            else lit "." ++ strip_trailing_zeros (pad_zeros 3 (digits fp)))
  | PosInf => [8734%N]
  | NegInf => lit "-" ++ [8734%N]
  | NaN => lit "NaN"
  end.

Record FormatOptions : Type := {
  compact : option bool;
  showSymbol : option bool
}.

Definition formatDar (amount : number) (options : option FormatOptions)
  : jsstring :=
  let options := dflt {| compact := None; showSymbol := None |} options in
  let compact := dflt false (compact options) in
  let showSymbol := dflt true (showSymbol options) in
  let symbol := if showSymbol then lit " DAR" else [] in
  if compact then
    if Num.ge amount (Fin 1000000) then
      toFixed 2 (Num.div amount (Fin 1000000)) ++ lit "M" ++ symbol
    else if Num.ge amount (Fin 1000) then
      toFixed 2 (Num.div amount (Fin 1000)) ++ lit "K" ++ symbol
    else toLocaleString_enUS amount ++ symbol
  else toLocaleString_enUS amount ++ symbol.

(* --------------------------------------------------------------- *)
(** ** Validation utilities *)

Record ValidationResult : Type := {
  valid : bool;
  error : option jsstring
}.

Definition ok : ValidationResult := {| valid := true; error := None |}.
Definition failure (msg : jsstring) : ValidationResult :=
  {| valid := false; error := Some msg |}.

(** [/^[a-zA-Z0-9._%+-]+@[a-zA-Z0-9.-]+\.[a-zA-Z]{2,}$/] *)
Definition emailRegex : regex :=
  Seq (Plus (Class [ rng "a" "z"; rng "A" "Z"; rng "0" "9";
                     chr "."; chr "_"; chr "%"; chr "+"; chr "-" ]))
 (Seq (Class [ chr "@" ])
 (Seq (Plus (Class [ rng "a" "z"; rng "A" "Z"; rng "0" "9";
                     chr "."; chr "-" ]))
 (Seq (Class [ chr "." ])
      (AtLeast 2 (Class [ rng "a" "z"; rng "A" "Z" ]))))).

Definition freeProviders : list jsstring :=
  [ lit "gmail.com"; lit "yahoo.com"; lit "hotmail.com"; lit "outlook.com";
    lit "live.com"; lit "icloud.com"; lit "protonmail.com"; lit "yandex.ru";
    lit "mail.ru"; lit "aol.com"; lit "gmx.com"; lit "zoho.com" ].

Definition validateBusinessEmail (email : jsstring)
  (allowFreeProviders : option bool) : ValidationResult :=
  let allowFreeProviders := dflt false allowFreeProviders in
  if is_empty email || is_empty (trim email) then
    failure (lit "Email is required")
  else if negb (regex_test emailRegex email) then
    failure (lit "Invalid email format")
  else if negb allowFreeProviders
          && (let domain :=
                nth_error (split (unit_of_ascii "@")
                             (String_toLowerCase email)) 1 in
              includes freeProviders domain) then
    failure (lit "Please use your business email address")
  else ok.

(** [parseInt(c, 10)] of a string of at most one code unit, [None] for NaN
    (also the NaN of [undefined], a string index out of range). *)
Definition parseInt10 (c : option N) : option Z :=
  match c with
  | Some u => if is_digit u then Some (Z.of_N u - 48)%Z else None
  | None => None
  end.

(** One round of the checksum loop: the sum is an integer or NaN. *)
Definition siret_step (cleaned : jsstring) (sum : option Z) (i : nat)
  : option Z :=
  let digit := parseInt10 (nth_error cleaned i) in
  let digit :=
    if Nat.eqb (i mod 2) 0 then
      match digit with
      | Some d => let d := (d * 2)%Z in
                  Some (if Z.ltb 9 d then (d - 9)%Z else d)
      | None => None
      end
    else digit in
  match sum, digit with
  | Some s, Some d => Some (s + d)%Z
  | _, _ => None
  end.

(** [sum % 10 !== 0]; NaN is not 0. *)
Definition rem10_nonzero (sum : option Z) : bool :=
  match sum with
  | Some s => negb (Z.eqb (Z.rem s 10) 0)
  | None => true
  end.

Definition validateSiret (siret : jsstring) : ValidationResult :=
  let cleaned := remove_whitespace siret in
  if negb (regex_test (Times 14 (Class class_d)) cleaned) then
    failure (lit "SIRET must be 14 digits")
  else
    let sum := fold_left (siret_step cleaned) (seq 0 14) (Some 0%Z) in
    if rem10_nonzero sum then failure (lit "Invalid SIRET checksum")
    else ok.

(** [/^FR[A-Z0-9]{2}\d{9}$/] *)
Definition vatRegex : regex :=
  Seq (Lit [ "F"; "R" ]%char)
 (Seq (Times 2 (Class [ rng "A" "Z"; rng "0" "9" ]))
      (Times 9 (Class class_d))).

Definition validateFrenchVAT (vat : jsstring) : ValidationResult :=
  let cleaned := String_toUpperCase (remove_whitespace vat) in
  if negb (regex_test vatRegex cleaned) then
    failure (lit "Invalid French VAT format. Expected: FR + 2 chars + 9 digits (e.g. FR12345678901)")
  else ok.

(** [now] is the time value of [new Date()], the clock read by the call. *)
Definition validateCampaignDates (now : Z) (startsAt endsAt : DateOrString)
  (minDurationDays maxDurationDays : option number) : ValidationResult :=
  let minDurationDays := dflt (Fin 1) minDurationDays in
  let maxDurationDays := dflt (Fin 365) maxDurationDays in
  let start := new_Date startsAt in
  let end_ := new_Date endsAt in
  let now : Date := Some now in
  if Num.isNaN (getTime start) then failure (lit "Invalid start date")
  else if Num.isNaN (getTime end_) then failure (lit "Invalid end date")
  else if Num.lt (getTime start) (getTime now) then
    failure (lit "Start date cannot be in the past")
  else if Num.le (getTime end_) (getTime start) then
    failure (lit "End date must be after start date")
  else
    let durationDays :=
      Num.div (Num.sub (getTime end_) (getTime start))
              (Num.of_Z (1000 * 60 * 60 * 24)) in
    if Num.lt durationDays minDurationDays then
      failure (lit "Campaign must run for at least "
                 ++ ToString minDurationDays ++ lit " day(s)")
    else if Num.gt durationDays maxDurationDays then
      failure (lit "Campaign cannot exceed "
                 ++ ToString maxDurationDays ++ lit " days")
    else ok.

Definition validateDarBudget (amount : number)
  (minAmount maxAmount : option number) : ValidationResult :=
  let minAmount := dflt (Fin 100) minAmount in
  let maxAmount := dflt (Fin 10000000) maxAmount in
  if negb (Num.isInteger amount) then
    failure (lit "DAR amount must be a whole number")
  else if Num.lt amount minAmount then
    failure (lit "Minimum budget is " ++ ToString minAmount ++ lit " DAR")
  else if Num.gt amount maxAmount then
    failure (lit "Maximum budget is "
               ++ Number_toLocaleString maxAmount ++ lit " DAR")
  else ok.

(* --------------------------------------------------------------- *)
(** ** The exported functions *)

(** A call of an exported function with its arguments. *)
Inductive call : Type :=
| DarToEur (darAmount : number) (rate : option number)
| EurToDar (eurAmount : number) (rate : option number)
| FormatDar (amount : number) (options : option FormatOptions)
| CalcReferralReward (tier baseDar : number)
| HasSufficientDar (balance required : number) (includeBuffer : option bool)
| CalcCampaignBudget (giftCostDar estimatedLeads : number)
    (conversionRate : option number)
| ValidateBusinessEmail (email : jsstring) (allowFreeProviders : option bool)
| ValidateSiret (siret : jsstring)
| ValidateFrenchVAT (vat : jsstring)
| ValidateCampaignDates (startsAt endsAt : DateOrString)
    (minDurationDays maxDurationDays : option number)
| ValidateDarBudget (amount : number) (minAmount maxAmount : option number).

Inductive value : Type :=
| VNumber (x : number)
| VString (s : jsstring)
| VBoolean (b : bool)
| VBudget (b : CampaignBudget)
| VValidation (r : ValidationResult).

(** The outcome of a call made when the clock reads [now]. *)
Definition invoke (now : Z) (c : call) : completion value :=
  match c with
  | DarToEur a r => bind (darToEur a r) (fun x => Normal (VNumber x))
  | EurToDar a r => bind (eurToDar a r) (fun x => Normal (VNumber x))
  | FormatDar a o => Normal (VString (formatDar a o))
  | CalcReferralReward t b => Normal (VNumber (calcReferralReward t b))
  | HasSufficientDar b r i => Normal (VBoolean (hasSufficientDar b r i))
  | CalcCampaignBudget g l r => Normal (VBudget (calcCampaignBudget g l r))
  | ValidateBusinessEmail e a =>
      Normal (VValidation (validateBusinessEmail e a))
  | ValidateSiret s => Normal (VValidation (validateSiret s))
  | ValidateFrenchVAT v => Normal (VValidation (validateFrenchVAT v))
  | ValidateCampaignDates s e mn mx =>
      Normal (VValidation (validateCampaignDates now s e mn mx))
  | ValidateDarBudget a mn mx =>
      Normal (VValidation (validateDarBudget a mn mx))
  end.

End WithHost.

(* ================================================================= *)
(** ** A reference host *)

Definition upper_unit (c : N) : N :=
  if in_range c (rng "a" "z") then (c - 32)%N else c.

(** The fraction digits of [r] (with [0 <= r < 1]), at most [n] of them. *)
Fixpoint fraction_digits (n : nat) (r : Q) : jsstring :=
  match n with
  | O => []
  | S n' =>
      if Qeq_bool r 0 then []
      else let d := Qfloor (r * 10) in
           digit_unit (Z.to_N d) :: fraction_digits n' (r * 10 - inject_Z d)
  end.

(** [Number::toString] on the values that have a short decimal expansion:
    an integer is written in full below 10^21 and as [d.ddde+n] from there
    on; another value is written with its fraction digits (at most 20). *)
Definition decimal_toString (q : Q) : jsstring :=
  let s := if Qlt_bool q 0 then lit "-" else [] in
  let a := Qabs q in
  let ip := Z.to_N (Qfloor a) in
  let ds := digits ip in
  if Qle_bool (inject_Z (10 ^ 21)) a then
    let e := digits (N.of_nat (List.length ds - 1)) in
    match strip_trailing_zeros ds with
    | [] => s ++ ds
    | d :: [] => s ++ [d] ++ lit "e+" ++ e
    | d :: rest => s ++ [d] ++ lit "." ++ rest ++ lit "e+" ++ e
    end
  else
    match fraction_digits 20 (a - inject_Z (Z.of_N ip)) with
    | [] => s ++ ds
    | fs => s ++ ds ++ lit "." ++ fs
    end.

(** A host for evaluating the functions on concrete inputs: case mapping of
    Basic Latin, no date string recognised (the examples pass Date objects),
    decimal number strings, and en-US as the default locale. *)
Definition reference_host : Host := {|
  String_toLowerCase := map lower_unit;
  String_toUpperCase := map upper_unit;
  Date_parse := fun _ => None;
  Number_toString := decimal_toString;
  Number_toLocaleString := toLocaleString_enUS
|}.

(* ================================================================= *)
(** ** Statements of the specification *)





Definition throws {A : Type} (c : completion A) : bool :=
  match c with
  | Throw _ => true
  | Normal _ => false
  end.

(** The calls that the conversion functions reject. *)
Definition negative_conversion (c : call) : bool :=
  match c with
  | DarToEur a _ | EurToDar a _ => Num.lt a (Fin 0)
  | _ => false
  end.

Definition is_validation_call (c : call) : bool :=
  match c with
  | ValidateBusinessEmail _ _ | ValidateSiret _ | ValidateFrenchVAT _
  | ValidateCampaignDates _ _ _ _ | ValidateDarBudget _ _ _ => true
  | _ => false
  end.

(** [error] is present if and only if [valid] is false. *)
Definition error_iff_invalid (r : ValidationResult) : Prop :=
  (exists msg, error r = Some msg) <-> valid r = false.






(** The checksum of the specification: the digit at an even position is
    doubled, and 9 is subtracted when the doubled value exceeds 9. *)
Definition luhn_adjust (i : nat) (d : Z) : Z :=
  if Nat.even i
  then (if Z.ltb 9 (2 * d) then 2 * d - 9 else 2 * d)%Z
  else d.

(** The sum of the adjusted digits [ds], the first of them at position [i]. *)
Fixpoint luhn_sum (i : nat) (ds : list Z) : Z :=
  match ds with
  | [] => 0%Z
  | d :: ds' => (luhn_adjust i d + luhn_sum (S i) ds')%Z
  end.

Definition digit_of_unit (c : N) : Z := (Z.of_N c - 48)%Z.

(** validateSiret in the words of the specification. *)
Definition validateSiret_spec (siret : jsstring) : ValidationResult :=
  let stripped := filter (fun c => negb (is_whitespace c)) siret in
  if Nat.eqb (List.length stripped) 14 && forallb is_digit stripped then
    if Z.eqb (luhn_sum 0 (map digit_of_unit stripped) mod 10) 0 then ok
    else failure (lit "Invalid SIRET checksum")
  else failure (lit "SIRET must be 14 digits").

(** Empty or made of whitespace only. *)
Definition is_blank (s : jsstring) : bool := forallb is_whitespace s.

(** The domain portion of an address: what follows its first "@". *)
Fixpoint domain_part (email : jsstring) : jsstring :=
  match email with
  | [] => []
  | c :: s => if N.eqb c (unit_of_ascii "@") then s else domain_part s
  end.

(** Equality of two strings up to the case of the letters A-Z. *)
Definition eq_ignore_case (s t : jsstring) : bool :=
  jsstring_eqb (map lower_unit s) (map lower_unit t).

(** The addresses of the pattern, in words: a non-empty local part of
    letters, digits and the characters . _ % + -, an "@", a non-empty domain
    of letters, digits, dots and hyphens, a dot, and at least two letters. *)
Definition well_formed_address (s : jsstring) : Prop :=
  exists local dom tld,
    s = local ++ lit "@" ++ dom ++ lit "." ++ tld
    /\ local <> []
    /\ forallb (in_class [ rng "a" "z"; rng "A" "Z"; rng "0" "9";
                           chr "."; chr "_"; chr "%"; chr "+"; chr "-" ])
         local = true
    /\ dom <> []
    /\ forallb (in_class [ rng "a" "z"; rng "A" "Z"; rng "0" "9";
                           chr "."; chr "-" ]) dom = true
    /\ (2 <= List.length tld)%nat
    /\ forallb (in_class [ rng "a" "z"; rng "A" "Z" ]) tld = true.

(** validateBusinessEmail in the words of the specification. *)
Definition validateBusinessEmail_spec (email : jsstring)
  (allowFreeProviders : option bool) : ValidationResult :=
  if is_blank email then failure (lit "Email is required")
  else if negb (regex_test emailRegex email) then
    failure (lit "Invalid email format")
  else if negb (dflt false allowFreeProviders)
          && existsb (eq_ignore_case (domain_part email)) freeProviders then
    failure (lit "Please use your business email address")
  else ok.

(** [t] writes the value [v] with two decimals: the digits of an integer
    part, a point, and two digits. *)
Definition two_decimals (t : jsstring) (v : Q) : Prop :=
  exists ip fp,
    t = ip ++ lit "." ++ fp
    /\ ip <> [] /\ forallb is_digit ip = true
    /\ List.length fp = 2%nat /\ forallb is_digit fp = true
    /\ v == inject_Z (Z.of_N (digits_value ip))
            + inject_Z (Z.of_N (digits_value fp)) / 100.


(** The suffix: " DAR" unless showSymbol is false. *)
Definition symbol_of (options : option FormatOptions) : jsstring :=
  match options with
  | Some {| showSymbol := Some false |} => []
  | _ => lit " DAR"
  end.

Definition compact_set (options : option FormatOptions) : bool :=
  match options with
  | Some {| compact := Some true |} => true
  | _ => false
  end.

(** A code unit of Basic Latin other than "@". *)
Definition address_unit (c : N) : bool :=
  is_basic_latin c && negb (N.eqb c (unit_of_ascii "@")).


(** Two numbers are the same value: equal rationals, or the same special
    value. *)
Definition same_number (a b : number) : Prop :=
  match a, b with
  | Fin x, Fin y => x == y
  | PosInf, PosInf | NegInf, NegInf | NaN, NaN => True
  | _, _ => False
  end.

(** The value a call returned, for comparing with a documented one. *)
Definition returns (c : completion number) (x : number) : Prop :=
  match c with
  | Normal y => same_number y x
  | Throw _ => False
  end.

(** On a string of Basic Latin code units [toUpperCase] maps [a-z] to [A-Z]
    and leaves the rest. *)
Definition upper_basic_latin (H : Host) : Prop :=
  forall s, forallb is_basic_latin s = true ->
            String_toUpperCase s = map upper_unit s.

(** The VAT numbers of the pattern, in words: "FR", a key of two capital
    letters or digits, and nine digits. *)
Definition vat_shape (s : jsstring) : Prop :=
  exists key siren,
    s = lit "FR" ++ key ++ siren
    /\ List.length key = 2%nat
    /\ forallb (in_class [ rng "A" "Z"; rng "0" "9" ]) key = true
    /\ List.length siren = 9%nat
    /\ forallb is_digit siren = true.


(* ================================================================= *)
(** * Properties *)

(** ** Comparisons of rationals *)

Lemma Qlt_bool_iff (x y : Q) : Qlt_bool x y = true <-> x < y.
Proof.
  unfold Qlt_bool. rewrite negb_true_iff.
  split; intro Hxy.
  - apply Qnot_le_lt. intro Hle. apply Qle_bool_iff in Hle. congruence.
  - destruct (Qle_bool y x) eqn:E; [|reflexivity].
    apply Qle_bool_iff in E. exfalso. apply (Qlt_not_le _ _ Hxy E).
Qed.

Lemma Qlt_bool_false_iff (x y : Q) : Qlt_bool x y = false <-> y <= x.
Proof.
  unfold Qlt_bool. rewrite negb_false_iff. apply Qle_bool_iff.
Qed.

Lemma Qle_bool_false_iff (x y : Q) : Qle_bool x y = false <-> y < x.
Proof.
  rewrite <- Qlt_bool_iff. unfold Qlt_bool.
  destruct (Qle_bool x y); simpl; split; congruence.
Qed.

Lemma Qeq_bool_false_iff (x y : Q) : Qeq_bool x y = false <-> ~ x == y.
Proof.
  rewrite <- Qeq_bool_iff. destruct (Qeq_bool x y); split; congruence.
Qed.


Lemma Nlt_Fin (x y : Q) : Num.lt (Fin x) (Fin y) = true <-> x < y.
Proof. apply Qlt_bool_iff. Qed.


Lemma Qfloor_nonneg (x : Q) : 0 <= x -> (0 <= Qfloor x)%Z.
Proof.
  intro Hx. change 0%Z with (Qfloor 0). now apply Qfloor_resp_le.
Qed.



(* ----------------------------------------------------------------- *)
(** ** hasSufficientDar *)




(* ----------------------------------------------------------------- *)
(** ** calcCampaignBudget *)

Example calcCampaignBudget_spec_example :
  calcCampaignBudget (Fin 10) (Fin 1000) (Some (Fin (15 # 100)))
  = {| minBudget := Num.of_Z 1500; recommendedBudget := Num.of_Z 1800;
       maxBudget := Num.of_Z 10000 |}.
Proof. vm_compute. reflexivity. Qed.




(* ----------------------------------------------------------------- *)
(** ** darToEur and eurToDar *)






Section Properties.

Context {H : Host}.

(** C4.  darToEur and eurToDar throw a RangeError exactly when the amount
    is negative, whatever the rate, and return normally for every amount
    that is at least 0; no other exported function throws. *)
Theorem throws_iff_negative_conversion :
  (forall a r, throws (darToEur a r) = Num.lt a (Fin 0))
  /\ (forall a r, throws (eurToDar a r) = Num.lt a (Fin 0))
  /\ (forall a r, Num.lt a (Fin 0) = true ->
        darToEur a r
        = Throw (RangeError (lit "DAR amount must be non-negative"))
        /\ eurToDar a r
           = Throw (RangeError (lit "EUR amount must be non-negative")))
  /\ (forall a r, Num.ge a (Fin 0) = true ->
        exists x y, darToEur a r = Normal x /\ eurToDar a r = Normal y)
  /\ (forall now c, throws (invoke now c) = negative_conversion c).
Proof.
  split; [|split; [|split; [|split]]].
  - intros a r. unfold darToEur. now destruct (Num.lt a (Fin 0)).
  - intros a r. unfold eurToDar. now destruct (Num.lt a (Fin 0)).
  - intros a r Hneg. unfold darToEur, eurToDar. rewrite Hneg. now split.
  - intros a r Hge.
    assert (Hlt : Num.lt a (Fin 0) = false).
    { destruct a as [q | | |]; simpl in *; try discriminate; auto.
      apply Qlt_bool_false_iff. now apply Qle_bool_iff. }
    unfold darToEur, eurToDar. rewrite Hlt. eauto.
  - intros now c. destruct c; simpl; auto.
    + unfold darToEur. now destruct (Num.lt darAmount (Fin 0)).
    + unfold eurToDar. now destruct (Num.lt eurAmount (Fin 0)).
Qed.

End Properties.

Lemma throws_iff_negative_conversion_witness :
  Num.lt (Fin (-1)) (Fin 0) = true
  /\ darToEur (Fin (-1)) None
     = Throw (RangeError (lit "DAR amount must be non-negative"))
  /\ eurToDar (Fin (-1)) None
     = Throw (RangeError (lit "EUR amount must be non-negative")).
Proof.
  split; [reflexivity|].
  apply (proj1 (proj2 (proj2 (@throws_iff_negative_conversion reference_host)))
           (Fin (-1)) None).
  reflexivity.
Defined.

(* ----------------------------------------------------------------- *)
(** ** The clock *)

Section Clock.

Context {H : Host}.


End Clock.



(* ----------------------------------------------------------------- *)
(** ** Validation results *)

Lemma error_iff_invalid_ok : error_iff_invalid ok.
Proof.
  unfold error_iff_invalid, ok. simpl.
  split; [intros [msg E]|intro E]; discriminate.
Qed.

Lemma error_iff_invalid_failure (msg : jsstring) :
  error_iff_invalid (failure msg).
Proof.
  unfold error_iff_invalid, failure. simpl. split; eauto.
Qed.

Create HintDb validation.
#[local] Hint Resolve error_iff_invalid_ok error_iff_invalid_failure : validation.

Ltac branches :=
  repeat match goal with
         | |- context [if ?b then _ else _] => destruct b
         end.

Section Validation.

Context {H : Host}.

Lemma validateBusinessEmail_well_formed email allow :
  error_iff_invalid (validateBusinessEmail email allow).
Proof. unfold validateBusinessEmail. branches; auto with validation. Qed.

Lemma validateSiret_well_formed siret :
  error_iff_invalid (validateSiret siret).
Proof. unfold validateSiret. branches; auto with validation. Qed.

Lemma validateFrenchVAT_well_formed vat :
  error_iff_invalid (validateFrenchVAT vat).
Proof. unfold validateFrenchVAT. branches; auto with validation. Qed.

Lemma validateCampaignDates_well_formed now s e mn mx :
  error_iff_invalid (validateCampaignDates now s e mn mx).
Proof. unfold validateCampaignDates. branches; auto with validation. Qed.

Lemma validateDarBudget_well_formed a mn mx :
  error_iff_invalid (validateDarBudget a mn mx).
Proof. unfold validateDarBudget. branches; auto with validation. Qed.

(** C8.  Every call of a validate function returns normally with a
    ValidationResult, and in that result [error] is present if and only
    if [valid] is false. *)
Theorem validation_total_and_well_formed (now : Z) (c : call) :
  is_validation_call c = true ->
  exists r, invoke now c = Normal (VValidation r) /\ error_iff_invalid r.
Proof.
  destruct c; simpl; try discriminate; intros _; eexists;
    (split; [reflexivity|]).
  - apply validateBusinessEmail_well_formed.
  - apply validateSiret_well_formed.
  - apply validateFrenchVAT_well_formed.
  - apply validateCampaignDates_well_formed.
  - apply validateDarBudget_well_formed.
Qed.

End Validation.

Lemma validation_total_and_well_formed_witness :
  exists r,
    invoke (H := reference_host) 0 (ValidateSiret (lit "12345678901234"))
    = Normal (VValidation r)
    /\ error_iff_invalid r.
Proof.
  apply (@validation_total_and_well_formed reference_host 0
           (ValidateSiret (lit "12345678901234"))).
  reflexivity.
Defined.

(* ----------------------------------------------------------------- *)
(** ** validateCampaignDates *)

Lemma Qle_bool_inject_Z (a b : Z) :
  Qle_bool (inject_Z a) (inject_Z b) = Z.leb a b.
Proof.
  destruct (Z.leb a b) eqn:E.
  - apply Qle_bool_iff. rewrite <- Zle_Qle. now apply Z.leb_le.
  - apply Qle_bool_false_iff. rewrite <- Zlt_Qlt. now apply Z.leb_gt.
Qed.

Lemma Qlt_bool_inject_Z (a b : Z) :
  Qlt_bool (inject_Z a) (inject_Z b) = Z.ltb a b.
Proof.
  unfold Qlt_bool. rewrite Qle_bool_inject_Z, Z.ltb_antisym. reflexivity.
Qed.




Section CampaignDates.

Context {H : Host}.




End CampaignDates.


(* ----------------------------------------------------------------- *)
(** ** Regular expressions: the test decides the language *)

Lemma nullable_lang (r : regex) : nullable r = true <-> lang r [].
Proof.
  split.
  - induction r; simpl; intro E; try discriminate.
    + constructor.
    + apply andb_true_iff in E. destruct E as [E1 E2].
      change (@nil N) with (@nil N ++ @nil N). constructor; auto.
    + apply orb_true_iff in E. destruct E as [E | E].
      * apply lang_alt_l; auto.
      * apply lang_alt_r; auto.
    + constructor.
  - intro L. remember (@nil N) as w eqn:Ew.
    induction L; simpl; try discriminate; auto.
    + apply app_eq_nil in Ew. destruct Ew as [-> ->].
      rewrite IHL1, IHL2; auto.
    + rewrite IHL; auto.
    + rewrite IHL; auto. apply orb_true_r.
Qed.

Lemma lang_deriv_sound (r : regex) :
  forall c s, lang (deriv c r) s -> lang r (c :: s).
Proof.
  induction r; intros c s L; simpl in L.
  - inversion L.
  - inversion L.
  - destruct (in_class cls c) eqn:E; inversion L; subst. now constructor.
  - destruct (nullable r1) eqn:E.
    + inversion L as [| | | ? ? ? L1 | ? ? ? L2 | |]; subst.
      * inversion L1 as [| | ? ? s1 s2 La Lb | | | |]; subst.
        change (c :: s1 ++ s2) with ((c :: s1) ++ s2). constructor; auto.
      * change (c :: s) with ([] ++ c :: s). constructor; auto.
        now apply nullable_lang.
    + inversion L as [| | ? ? s1 s2 La Lb | | | |]; subst.
      change (c :: s1 ++ s2) with ((c :: s1) ++ s2). constructor; auto.
  - inversion L; subst.
    + apply lang_alt_l; auto.
    + apply lang_alt_r; auto.
  - inversion L as [| | ? ? s1 s2 La Lb | | | |]; subst.
    change (c :: s1 ++ s2) with ((c :: s1) ++ s2). constructor; auto.
Qed.

Lemma lang_deriv_complete (r : regex) (w : jsstring) :
  lang r w -> forall c s, w = c :: s -> lang (deriv c r) s.
Proof.
  induction 1 as [ | cls d E | r1 r2 s1 s2 L1 IH1 L2 IH2 | r1 r2 s0 L IH
                 | r1 r2 s0 L IH | r0 | r0 s1 s2 L1 IH1 L2 IH2 ];
    intros c s Ew; simpl.
  - discriminate.
  - injection Ew as -> <-. rewrite E. constructor.
  - destruct s1 as [| c1 s1'].
    + simpl in Ew. apply nullable_lang in L1. rewrite L1.
      apply lang_alt_r. now apply IH2.
    + simpl in Ew. injection Ew as -> <-.
      assert (L' : lang (Seq (deriv c r1) r2) (s1' ++ s2)).
      { constructor; auto. }
      destruct (nullable r1); [apply lang_alt_l|]; exact L'.
  - apply lang_alt_l. now apply IH.
  - apply lang_alt_r. now apply IH.
  - discriminate.
  - destruct s1 as [| c1 s1'].
    + simpl in Ew. now apply IH2.
    + simpl in Ew. injection Ew as -> <-. constructor; auto.
Qed.

Lemma regex_test_lang (s : jsstring) :
  forall r, regex_test r s = true <-> lang r s.
Proof.
  induction s as [| c s IH]; intro r; simpl.
  - apply nullable_lang.
  - rewrite IH. split.
    + apply lang_deriv_sound.
    + intro L. now apply (lang_deriv_complete L).
Qed.

Lemma lang_Seq_inv (r1 r2 : regex) (s : jsstring) :
  lang (Seq r1 r2) s ->
  exists s1 s2, s = s1 ++ s2 /\ lang r1 s1 /\ lang r2 s2.
Proof. inversion 1; subst; eauto. Qed.

Lemma lang_Class_inv (cls : list (N * N)) (s : jsstring) :
  lang (Class cls) s -> exists c, s = [c] /\ in_class cls c = true.
Proof. inversion 1; subst; eauto. Qed.

Lemma lang_Star_Class (cls : list (N * N)) (s : jsstring) :
  lang (Star (Class cls)) s <-> forallb (in_class cls) s = true.
Proof.
  split.
  - intro L. remember (Star (Class cls)) as r eqn:Er.
    induction L; try discriminate; [reflexivity|].
    injection Er as ->. apply lang_Class_inv in L1.
    destruct L1 as [c [-> Ec]]. simpl. rewrite Ec. auto.
  - induction s as [| c s IH]; simpl; intro E.
    + constructor.
    + apply andb_true_iff in E. destruct E as [Ec Es].
      change (c :: s) with ([c] ++ s). constructor; auto. now constructor.
Qed.

Lemma lang_Plus_Class (cls : list (N * N)) (s : jsstring) :
  lang (Plus (Class cls)) s -> s <> [] /\ forallb (in_class cls) s = true.
Proof.
  intro L. apply lang_Seq_inv in L.
  destruct L as [s1 [s2 [-> [L1 L2]]]].
  apply lang_Class_inv in L1. destruct L1 as [c [-> Ec]].
  apply lang_Star_Class in L2. simpl. rewrite Ec, L2. split; [discriminate|auto].
Qed.

Lemma lang_Times_Class (cls : list (N * N)) (n : nat) :
  forall s, lang (Times n (Class cls)) s
            <-> List.length s = n /\ forallb (in_class cls) s = true.
Proof.
  induction n as [| n IH]; intro s; simpl.
  - split.
    + inversion 1. auto.
    + intros [E _]. apply length_zero_iff_nil in E. subst. constructor.
  - split.
    + intro L. apply lang_Seq_inv in L.
      destruct L as [s1 [s2 [-> [L1 L2]]]].
      apply lang_Class_inv in L1. destruct L1 as [c [-> Ec]].
      apply IH in L2. destruct L2 as [El Es]. simpl. rewrite Ec, El, Es. auto.
    + intros [El Es]. destruct s as [| c s]; [discriminate|].
      simpl in El, Es. injection El as El.
      apply andb_true_iff in Es. destruct Es as [Ec Es].
      change (c :: s) with ([c] ++ s). constructor.
      * now constructor.
      * apply IH. auto.
Qed.

Lemma regex_test_Times_Class (cls : list (N * N)) (n : nat) (s : jsstring) :
  regex_test (Times n (Class cls)) s
  = Nat.eqb (List.length s) n && forallb (in_class cls) s.
Proof.
  destruct (Nat.eqb (List.length s) n && forallb (in_class cls) s) eqn:E.
  - apply regex_test_lang, lang_Times_Class.
    apply andb_true_iff in E. destruct E as [El Es].
    apply Nat.eqb_eq in El. auto.
  - destruct (regex_test (Times n (Class cls)) s) eqn:T; [|reflexivity].
    apply regex_test_lang, lang_Times_Class in T. destruct T as [El Es].
    apply Nat.eqb_eq in El. rewrite El, Es in E. discriminate.
Qed.

(* ----------------------------------------------------------------- *)
(** ** validateSiret *)

Lemma is_digit_bounds (c : N) :
  is_digit c = true <-> (48 <= c <= 57)%N.
Proof.
  unfold is_digit, in_class, class_d, existsb, in_range, rng, fst, snd.
  change (unit_of_ascii "0") with 48%N. change (unit_of_ascii "9") with 57%N.
  rewrite orb_false_r, andb_true_iff, !N.leb_le. reflexivity.
Qed.

Lemma even_mod2 (i : nat) : Nat.eqb (i mod 2) 0 = Nat.even i.
Proof.
  destruct (Nat.even i) eqn:E.
  - apply Nat.even_spec in E. destruct E as [k ->].
    apply Nat.eqb_eq. rewrite Nat.mul_comm. apply Nat.Div0.mod_mul.
  - apply Nat.eqb_neq. intro M.
    assert (Ev : Nat.even i = true).
    { apply Nat.even_spec. exists (i / 2)%nat.
      pose proof (Nat.div_mod_eq i 2). lia. }
    congruence.
Qed.

Lemma luhn_adjust_nonneg (i : nat) (d : Z) :
  (0 <= d)%Z -> (0 <= luhn_adjust i d)%Z.
Proof.
  intro Hd. unfold luhn_adjust.
  destruct (Nat.even i); [|exact Hd].
  destruct (Z.ltb_spec 9 (2 * d)); lia.
Qed.

Lemma luhn_sum_nonneg (s : jsstring) :
  forallb is_digit s = true ->
  forall i, (0 <= luhn_sum i (map digit_of_unit s))%Z.
Proof.
  induction s as [| c s IH]; simpl; intros E i; [lia|].
  apply andb_true_iff in E. destruct E as [Ec Es].
  apply is_digit_bounds in Ec.
  pose proof (@luhn_adjust_nonneg i (digit_of_unit c)) as Ha.
  specialize (IH Es (S i)). unfold digit_of_unit in *. lia.
Qed.

Lemma siret_loop (rest : jsstring) :
  forallb is_digit rest = true ->
  forall pre acc,
    fold_left (siret_step (pre ++ rest))
      (seq (List.length pre) (List.length rest)) (Some acc)
    = Some (acc + luhn_sum (List.length pre) (map digit_of_unit rest))%Z.
Proof.
  induction rest as [| c rest IH]; intros E pre acc;
    cbn [forallb List.length seq fold_left map luhn_sum] in *.
  - f_equal. lia.
  - apply andb_true_iff in E. destruct E as [Ec Es].
    assert (Hstep : siret_step (pre ++ c :: rest) (Some acc) (List.length pre)
                    = Some (acc + luhn_adjust (List.length pre) (digit_of_unit c))%Z).
    { unfold siret_step. rewrite nth_error_app2, Nat.sub_diag by lia.
      cbn [nth_error parseInt10]. rewrite Ec, even_mod2.
      unfold luhn_adjust, digit_of_unit.
      destruct (Nat.even (List.length pre)); [|reflexivity].
      rewrite (Z.mul_comm _ 2). reflexivity. }
    rewrite Hstep.
    replace (pre ++ c :: rest) with ((pre ++ [c]) ++ rest)
      by (rewrite <- app_assoc; reflexivity).
    replace (S (List.length pre)) with (List.length (pre ++ [c]))
      by (rewrite length_app; simpl; lia).
    rewrite IH by exact Es. f_equal. lia.
Qed.

(** C3.  validateSiret strips whitespace, rejects what is not exactly 14
    digits, and otherwise accepts exactly when the sum of the digits, those
    at even positions doubled and reduced by 9 above 9, is a multiple of 10;
    it accepts "732 829 320 00074" and rejects "12345678901234". *)
Theorem validateSiret_correct :
  (forall siret, validateSiret siret = validateSiret_spec siret)
  /\ validateSiret (lit "732 829 320 00074") = ok
  /\ validateSiret (lit "12345678901234")
     = failure (lit "Invalid SIRET checksum").
Proof.
  split; [|split; reflexivity].
  intro siret. unfold validateSiret, validateSiret_spec, remove_whitespace.
  set (cleaned := filter (fun c => negb (is_whitespace c)) siret).
  rewrite regex_test_Times_Class.
  change (forallb (in_class class_d) cleaned) with (forallb is_digit cleaned).
  destruct (Nat.eqb (List.length cleaned) 14 && forallb is_digit cleaned) eqn:E;
    [|reflexivity].
  apply andb_true_iff in E. destruct E as [El Es].
  apply Nat.eqb_eq in El. cbn [negb].
  pose proof (siret_loop cleaned Es [] 0) as Hloop.
  rewrite El in Hloop. simpl app in Hloop. simpl List.length in Hloop.
  rewrite Hloop. unfold rem10_nonzero.
  rewrite Z.add_0_l, Z.rem_mod_nonneg by (try apply luhn_sum_nonneg; auto; lia).
  destruct (Z.eqb _ 0); reflexivity.
Qed.

(* ----------------------------------------------------------------- *)
(** ** validateBusinessEmail *)

Lemma trimStart_empty (s : jsstring) :
  is_empty (trimStart s) = forallb is_whitespace s.
Proof.
  induction s as [| c s IH]; simpl; [reflexivity|].
  destruct (is_whitespace c); simpl; auto.
Qed.

Lemma trimStart_forallb (s : jsstring) :
  forallb is_whitespace (trimStart s) = forallb is_whitespace s.
Proof.
  induction s as [| c s IH]; simpl; [reflexivity|].
  destruct (is_whitespace c) eqn:E; simpl; auto. now rewrite E.
Qed.

Lemma forallb_rev {A : Type} (f : A -> bool) (l : list A) :
  forallb f (rev l) = forallb f l.
Proof.
  induction l as [| a l IH]; simpl; [reflexivity|].
  rewrite forallb_app, IH. simpl.
  destruct (f a), (forallb f l); reflexivity.
Qed.

Lemma is_empty_rev (s : jsstring) : is_empty (rev s) = is_empty s.
Proof.
  destruct s as [| c s]; simpl; [reflexivity|].
  destruct (rev s); reflexivity.
Qed.

Lemma blank_iff_trim_empty (s : jsstring) :
  is_empty s || is_empty (trim s) = is_blank s.
Proof.
  unfold trim, trimEnd, is_blank.
  rewrite is_empty_rev, trimStart_empty, forallb_rev, trimStart_forallb.
  destruct s; reflexivity.
Qed.

Lemma in_range_spec (c lo hi : N) :
  in_range c (lo, hi) = true <-> (lo <= c <= hi)%N.
Proof.
  unfold in_range. simpl. rewrite andb_true_iff, !N.leb_le. reflexivity.
Qed.

Lemma address_unit_spec (c : N) :
  address_unit c = true <-> (c < 128 /\ c <> 64)%N.
Proof.
  unfold address_unit, is_basic_latin.
  change (unit_of_ascii "@") with 64%N.
  rewrite andb_true_iff, negb_true_iff, N.ltb_lt, N.eqb_neq. reflexivity.
Qed.

(** The three classes of the pattern hold no "@" and nothing outside Basic
    Latin. *)
Lemma email_classes_address_unit (cls : list (N * N)) (c : N) :
  incl cls [ rng "a" "z"; rng "A" "Z"; rng "0" "9";
             chr "."; chr "_"; chr "%"; chr "+"; chr "-" ] ->
  in_class cls c = true -> address_unit c = true.
Proof.
  intros Hincl E. apply address_unit_spec.
  apply existsb_exists in E. destruct E as [[lo hi] [Hin Hr]].
  apply in_range_spec in Hr. apply Hincl in Hin.
  simpl in Hin. unfold rng, chr in Hin.
  repeat (destruct Hin as [Hin | Hin];
          [injection Hin as <- <-; cbv - [N.le N.lt] in Hr; lia|]).
  destruct Hin.
Qed.

Lemma forallb_address_unit (cls : list (N * N)) (s : jsstring) :
  incl cls [ rng "a" "z"; rng "A" "Z"; rng "0" "9";
             chr "."; chr "_"; chr "%"; chr "+"; chr "-" ] ->
  forallb (in_class cls) s = true -> forallb address_unit s = true.
Proof.
  intros Hincl E. rewrite forallb_forall in *.
  intros c Hc. eapply email_classes_address_unit; eauto.
Qed.

Lemma emailRegex_shape (s : jsstring) :
  regex_test emailRegex s = true ->
  exists local rest,
    s = local ++ unit_of_ascii "@" :: rest
    /\ forallb address_unit local = true
    /\ forallb address_unit rest = true.
Proof.
  intro T. apply regex_test_lang in T. unfold emailRegex, AtLeast in T.
  apply lang_Seq_inv in T. destruct T as [local [s1 [-> [Llocal T]]]].
  apply lang_Seq_inv in T. destruct T as [at_ [s2 [-> [Lat T]]]].
  apply lang_Seq_inv in T. destruct T as [dom [s3 [-> [Ldom T]]]].
  apply lang_Seq_inv in T. destruct T as [dot [s4 [-> [Ldot T]]]].
  apply lang_Seq_inv in T. destruct T as [tld2 [tld [-> [Ltld2 Ltld]]]].
  apply lang_Plus_Class in Llocal. destruct Llocal as [_ Hlocal].
  apply lang_Plus_Class in Ldom. destruct Ldom as [_ Hdom].
  apply lang_Class_inv in Lat. destruct Lat as [a [-> Ha]].
  apply lang_Class_inv in Ldot. destruct Ldot as [d [-> Hd]].
  apply lang_Times_Class in Ltld2. destruct Ltld2 as [_ Htld2].
  apply lang_Star_Class in Ltld.
  assert (Ea : a = unit_of_ascii "@").
  { apply existsb_exists in Ha. destruct Ha as [[lo hi] [[Hin | []] Hr]].
    injection Hin as <- <-. apply in_range_spec in Hr.
    apply N.le_antisymm; tauto. }
  subst a. exists local, (dom ++ [d] ++ tld2 ++ tld).
  split; [reflexivity|]. split.
  - eapply forallb_address_unit; [|exact Hlocal].
    intros x Hx. exact Hx.
  - rewrite !forallb_app. apply andb_true_iff. split; [|apply andb_true_iff; split;
      [|apply andb_true_iff; split]].
    + eapply forallb_address_unit; [|exact Hdom].
      intros x Hx. simpl in *. tauto.
    + simpl. rewrite andb_true_r.
      eapply email_classes_address_unit; [|exact Hd].
      intros x Hx. simpl in *. tauto.
    + eapply forallb_address_unit; [|exact Htld2].
      intros x Hx. simpl in *. tauto.
    + eapply forallb_address_unit; [|exact Ltld].
      intros x Hx. simpl in *. tauto.
Qed.

Lemma lang_Plus_Class_intro (cls : list (N * N)) (s : jsstring) :
  s <> [] -> forallb (in_class cls) s = true -> lang (Plus (Class cls)) s.
Proof.
  intros Hne Hs. destruct s as [| c s]; [contradiction|].
  cbn [forallb] in Hs. apply andb_true_iff in Hs. destruct Hs as [Hc Hs].
  change (c :: s) with ([c] ++ s). constructor.
  - now constructor.
  - now apply lang_Star_Class.
Qed.

Lemma lang_AtLeast_Class (cls : list (N * N)) (n : nat) (s : jsstring) :
  lang (AtLeast n (Class cls)) s
  <-> (n <= List.length s)%nat /\ forallb (in_class cls) s = true.
Proof.
  unfold AtLeast. split.
  - intro L. apply lang_Seq_inv in L. destruct L as [s1 [s2 [-> [L1 L2]]]].
    apply lang_Times_Class in L1. destruct L1 as [Hlen H1].
    apply lang_Star_Class in L2.
    rewrite length_app, forallb_app, H1, L2. split; [lia|reflexivity].
  - intros [Hlen Hs]. rewrite <- (firstn_skipn n s) in Hs |- *.
    rewrite forallb_app in Hs. apply andb_true_iff in Hs.
    destruct Hs as [H1 H2]. constructor.
    + apply lang_Times_Class. split; [|exact H1].
      rewrite length_firstn. lia.
    + now apply lang_Star_Class.
Qed.

(** The pattern test accepts exactly the well-formed addresses. *)
Lemma emailRegex_accepts (s : jsstring) :
  regex_test emailRegex s = true <-> well_formed_address s.
Proof.
  rewrite regex_test_lang. unfold emailRegex, well_formed_address. split.
  - intro T.
    apply lang_Seq_inv in T. destruct T as [local [s1 [-> [Llocal T]]]].
    apply lang_Seq_inv in T. destruct T as [at_ [s2 [-> [Lat T]]]].
    apply lang_Seq_inv in T. destruct T as [dom [s3 [-> [Ldom T]]]].
    apply lang_Seq_inv in T. destruct T as [dot [tld [-> [Ldot Ltld]]]].
    apply lang_Plus_Class in Llocal. destruct Llocal as [Hl1 Hl2].
    apply lang_Plus_Class in Ldom. destruct Ldom as [Hd1 Hd2].
    apply lang_AtLeast_Class in Ltld. destruct Ltld as [Ht1 Ht2].
    apply lang_Class_inv in Lat. destruct Lat as [a [-> Ha]].
    apply lang_Class_inv in Ldot. destruct Ldot as [d [-> Hd]].
    assert (Ea : a = unit_of_ascii "@").
    { apply existsb_exists in Ha. destruct Ha as [[lo hi] [[Hin | []] Hr]].
      injection Hin as <- <-. apply in_range_spec in Hr.
      apply N.le_antisymm; tauto. }
    assert (Ed : d = unit_of_ascii ".").
    { apply existsb_exists in Hd. destruct Hd as [[lo hi] [[Hin | []] Hr]].
      injection Hin as <- <-. apply in_range_spec in Hr.
      apply N.le_antisymm; tauto. }
    subst a d. exists local, dom, tld. repeat split; auto.
  - intros [local [dom [tld [-> [Hl1 [Hl2 [Hd1 [Hd2 [Ht1 Ht2]]]]]]]]].
    constructor; [now apply lang_Plus_Class_intro|].
    constructor; [now constructor|].
    constructor; [now apply lang_Plus_Class_intro|].
    constructor; [now constructor|].
    apply lang_AtLeast_Class. auto.
Qed.

Lemma split_no_separator (sep : N) (s : jsstring) :
  forallb (fun c => negb (N.eqb c sep)) s = true -> split sep s = [s].
Proof.
  induction s as [| c s IH]; simpl; intro E; [reflexivity|].
  apply andb_true_iff in E. destruct E as [Ec Es].
  apply negb_true_iff in Ec. rewrite Ec, (IH Es). reflexivity.
Qed.

Lemma split_first_separator (sep : N) (s1 s2 : jsstring) :
  forallb (fun c => negb (N.eqb c sep)) s1 = true ->
  split sep (s1 ++ sep :: s2) = s1 :: split sep s2.
Proof.
  induction s1 as [| c s1 IH]; simpl; intro E.
  - now rewrite N.eqb_refl.
  - apply andb_true_iff in E. destruct E as [Ec Es].
    apply negb_true_iff in Ec. rewrite Ec, (IH Es). reflexivity.
Qed.

Lemma domain_part_first_separator (s1 s2 : jsstring) :
  forallb address_unit s1 = true ->
  domain_part (s1 ++ unit_of_ascii "@" :: s2) = s2.
Proof.
  induction s1 as [| c s1 IH]; simpl; intro E; [reflexivity|].
  apply andb_true_iff in E. destruct E as [Ec Es].
  apply address_unit_spec in Ec. destruct Ec as [_ Ec].
  apply N.eqb_neq in Ec. change (unit_of_ascii "@") with 64%N.
  rewrite Ec. now apply IH.
Qed.

Lemma lower_unit_address (c : N) :
  address_unit c = true ->
  negb (N.eqb (lower_unit c) (unit_of_ascii "@")) = true.
Proof.
  intro E. apply address_unit_spec in E. destruct E as [_ E].
  apply negb_true_iff, N.eqb_neq. change (unit_of_ascii "@") with 64%N.
  unfold lower_unit. destruct (in_range c (rng "A" "Z")) eqn:R; [|exact E].
  apply in_range_spec in R. cbv - [N.le N.lt] in R. lia.
Qed.

Lemma lower_address_no_separator (s : jsstring) :
  forallb address_unit s = true ->
  forallb (fun c => negb (N.eqb c (unit_of_ascii "@"))) (map lower_unit s)
  = true.
Proof.
  induction s as [| c s IH]; cbn [map forallb]; intro E; [reflexivity|].
  apply andb_true_iff in E. destruct E as [Ec Es].
  rewrite (lower_unit_address c Ec), (IH Es). reflexivity.
Qed.

Lemma address_unit_basic_latin (s : jsstring) :
  forallb address_unit s = true -> forallb is_basic_latin s = true.
Proof.
  induction s as [| c s IH]; simpl; intro E; [reflexivity|].
  apply andb_true_iff in E. destruct E as [Ec Es].
  unfold address_unit in Ec. apply andb_true_iff in Ec.
  destruct Ec as [Ec _]. now rewrite Ec, IH.
Qed.

Lemma existsb_map {A B : Type} (f : B -> bool) (g : A -> B) (l : list A) :
  existsb f (map g l) = existsb (fun a => f (g a)) l.
Proof.
  induction l as [| a l IH]; simpl; [reflexivity|]. now rewrite IH.
Qed.

Lemma freeProviders_lower_case :
  map (map lower_unit) freeProviders = freeProviders.
Proof. reflexivity. Qed.

Lemma includes_freeProviders (d : jsstring) :
  includes freeProviders (Some (map lower_unit d))
  = existsb (eq_ignore_case d) freeProviders.
Proof.
  unfold includes, eq_ignore_case.
  rewrite <- freeProviders_lower_case at 1. apply existsb_map.
Qed.

Section BusinessEmail.

Context {H : Host}.

Lemma domain_of_lower_case (email : jsstring) :
  lower_basic_latin H ->
  regex_test emailRegex email = true ->
  nth_error (split (unit_of_ascii "@") (String_toLowerCase email)) 1
  = Some (map lower_unit (domain_part email)).
Proof.
  intros Hlower T.
  destruct (emailRegex_shape email T) as [local [rest [-> [Hlocal Hrest]]]].
  rewrite Hlower.
  - rewrite map_app. cbn [map].
    change (lower_unit (unit_of_ascii "@")) with (unit_of_ascii "@").
    rewrite split_first_separator by now apply lower_address_no_separator.
    rewrite split_no_separator by now apply lower_address_no_separator.
    now rewrite domain_part_first_separator.
  - rewrite forallb_app. cbn [forallb].
    rewrite !address_unit_basic_latin by assumption. reflexivity.
Qed.

(** C6.  On a host whose toLowerCase maps A-Z to a-z on Basic Latin,
    validateBusinessEmail returns the first applicable failure in the
    order: blank input, input that does not match the pattern (the pattern
    accepts exactly the well-formed addresses), and, unless free providers
    are allowed, a domain that is one of the twelve denied ones up to case;
    it succeeds otherwise.  With allowFreeProviders set
    the denylist is skipped and "user@gmail.com" is accepted. *)
Theorem validateBusinessEmail_correct :
  lower_basic_latin H ->
  (forall email allowFreeProviders,
      validateBusinessEmail email allowFreeProviders
      = validateBusinessEmail_spec email allowFreeProviders)
  /\ (forall email,
         regex_test emailRegex email = true <-> well_formed_address email)
  /\ List.length freeProviders = 12%nat
  /\ validateBusinessEmail (lit "ceo@acme.com") None = ok
  /\ validateBusinessEmail (lit "user@gmail.com") None
     = failure (lit "Please use your business email address")
  /\ validateBusinessEmail (lit "user@gmail.com") (Some true) = ok.
Proof.
  intro Hlower.
  assert (Hspec : forall email allowFreeProviders,
             validateBusinessEmail email allowFreeProviders
             = validateBusinessEmail_spec email allowFreeProviders).
  { intros email allow.
    unfold validateBusinessEmail, validateBusinessEmail_spec.
    rewrite blank_iff_trim_empty.
    destruct (is_blank email); [reflexivity|].
    destruct (regex_test emailRegex email) eqn:T; [|reflexivity].
    cbn [negb]. destruct (negb (dflt false allow)); [|reflexivity].
    cbn [andb]. rewrite (domain_of_lower_case email Hlower T).
    now rewrite includes_freeProviders. }
  split; [exact Hspec|]. split; [exact emailRegex_accepts|].
  split; [reflexivity|].
  rewrite !Hspec. repeat split.
Qed.

End BusinessEmail.

Lemma validateBusinessEmail_correct_witness :
  validateBusinessEmail (H := reference_host) (lit "User@GMail.com") None
  = validateBusinessEmail_spec (lit "User@GMail.com") None.
Proof.
  apply (@validateBusinessEmail_correct reference_host).
  intros s _. reflexivity.
Defined.

(* ----------------------------------------------------------------- *)
(** ** Decimal digits *)

Lemma digits_value_app (s1 s2 : jsstring) :
  digits_value (s1 ++ s2)
  = (digits_value s1 * 10 ^ N.of_nat (List.length s2) + digits_value s2)%N.
Proof.
  unfold digits_value. rewrite fold_left_app.
  generalize (fold_left (fun acc c => (10 * acc + (c - 48))%N) s1 0%N) as a.
  induction s2 as [| c s2 IH]; intro a.
  - simpl. lia.
  - cbn [fold_left List.length]. rewrite IH, (IH (10 * 0 + (c - 48))%N).
    rewrite Nat2N.inj_succ, N.pow_succ_r'. lia.
Qed.

Lemma digit_unit_is_digit (d : N) : (d < 10)%N -> is_digit (digit_unit d) = true.
Proof. intro Hd. apply is_digit_bounds. unfold digit_unit. lia. Qed.

Lemma digits_value_digit_unit (d : N) : digits_value [digit_unit d] = d.
Proof. unfold digits_value, digit_unit. cbn [fold_left]. lia. Qed.

Lemma digits_fuel_spec (f : nat) :
  forall n acc,
    (n < 2 ^ N.of_nat (S f))%N ->
    exists ds,
      digits_fuel (S f) n acc = ds ++ acc
      /\ ds <> [] /\ forallb is_digit ds = true /\ digits_value ds = n.
Proof.
  induction f as [| f IH]; intros n acc Hn.
  - exists [digit_unit (n mod 10)].
    assert (n / 10 = 0)%N as E.
    { apply N.div_small. change (2 ^ N.of_nat 1)%N with 2%N in Hn. lia. }
    cbn [digits_fuel]. rewrite E. cbn [N.eqb].
    repeat split; [discriminate | |].
    + simpl. rewrite digit_unit_is_digit; [reflexivity|].
      apply N.mod_lt. discriminate.
    + rewrite digits_value_digit_unit. apply N.mod_small.
      change (2 ^ N.of_nat 1)%N with 2%N in Hn. lia.
  - cbn [digits_fuel]. destruct (N.eqb_spec (n / 10) 0) as [E | E].
    + exists [digit_unit (n mod 10)].
      repeat split; [discriminate | |].
      * simpl. rewrite digit_unit_is_digit; [reflexivity|].
        apply N.mod_lt. discriminate.
      * rewrite digits_value_digit_unit.
        pose proof (N.div_mod n 10). lia.
    + assert (Hn' : (n / 10 < 2 ^ N.of_nat (S f))%N).
      { apply N.Div0.div_lt_upper_bound.
        rewrite (Nat2N.inj_succ (S f)), N.pow_succ_r' in Hn. lia. }
      destruct (IH (n / 10)%N (digit_unit (n mod 10) :: acc) Hn')
        as [ds [Eds [Hne [Hdig Hval]]]].
      exists (ds ++ [digit_unit (n mod 10)]).
      rewrite <- app_assoc. repeat split.
      * exact Eds.
      * destruct ds; discriminate.
      * rewrite forallb_app, Hdig. simpl.
        rewrite digit_unit_is_digit; [reflexivity|].
        apply N.mod_lt. discriminate.
      * rewrite digits_value_app, Hval, digits_value_digit_unit.
        change (10 ^ N.of_nat (List.length [digit_unit (n mod 10)]))%N
          with 10%N.
        pose proof (N.div_mod n 10). lia.
Qed.

Lemma digits_spec (n : N) :
  digits n <> [] /\ forallb is_digit (digits n) = true
  /\ digits_value (digits n) = n.
Proof.
  unfold digits.
  assert (Hn : (n < 2 ^ N.of_nat (S (N.to_nat (N.log2 n))))%N).
  { rewrite Nat2N.inj_succ, N2Nat.id.
    destruct (N.eq_dec n 0) as [-> | Hpos]; [reflexivity|].
    apply N.log2_spec. lia. }
  destruct (digits_fuel_spec [] Hn) as [ds [E [Hne [Hdig Hval]]]].
  rewrite E, app_nil_r. auto.
Qed.

Lemma digits_value_zeros (k : nat) (s : jsstring) :
  digits_value (repeat (unit_of_ascii "0") k ++ s) = digits_value s.
Proof.
  induction k as [| k IH]; [reflexivity|].
  cbn [repeat app]. unfold digits_value in *. cbn [fold_left].
  exact IH.
Qed.

Lemma pad_zeros_spec (n : nat) (s : jsstring) :
  (n <= List.length (pad_zeros n s))%nat
  /\ digits_value (pad_zeros n s) = digits_value s
  /\ (forallb is_digit s = true -> forallb is_digit (pad_zeros n s) = true).
Proof.
  unfold pad_zeros. repeat split.
  - rewrite length_app, repeat_length. lia.
  - apply digits_value_zeros.
  - intro Hs. rewrite forallb_app, Hs, andb_true_r.
    apply forallb_forall. intros c Hc. apply repeat_spec in Hc. now subst.
Qed.

(* ----------------------------------------------------------------- *)
(** ** parseFloat *)

Lemma span_digits_app (ds rest : jsstring) :
  forallb is_digit ds = true ->
  match rest with
  | c :: _ => is_digit c = false
  | [] => True
  end ->
  span_digits (ds ++ rest) = (ds, rest).
Proof.
  intros Hds Hrest. induction ds as [| d ds IH]; cbn [app].
  - destruct rest as [| c rest]; [reflexivity|].
    cbn [span_digits]. now rewrite Hrest.
  - cbn [forallb] in Hds. apply andb_true_iff in Hds.
    destruct Hds as [Hd Hds]. cbn [span_digits]. now rewrite Hd, (IH Hds).
Qed.

(** A string that starts with a digit has no leading whitespace, no sign
    and is not [Infinity]. *)
Lemma first_digit_plain (c : N) (s : jsstring) :
  forallb is_digit (c :: s) = true ->
  is_whitespace c = false
  /\ N.eqb c (unit_of_ascii "-") = false
  /\ N.eqb c (unit_of_ascii "+") = false
  /\ N.eqb 73 c = false.
Proof.
  cbn [forallb]. intro E. apply andb_true_iff in E. destruct E as [Hc _].
  apply is_digit_bounds in Hc.
  change (unit_of_ascii "-") with 45%N. change (unit_of_ascii "+") with 43%N.
  rewrite !N.eqb_neq. repeat split; try lia.
  destruct (is_whitespace c) eqn:W; [|reflexivity].
  apply existsb_exists in W. destruct W as [[lo hi] [Hin Hr]].
  apply in_range_spec in Hr. simpl in Hin.
  repeat (destruct Hin as [Hin | Hin]; [injection Hin as <- <-; lia|]).
  destruct Hin.
Qed.

(* ----------------------------------------------------------------- *)
(** ** toFixed *)

Section Formatting.

Context {H : Host}.

(** Below 10^21 the string of [x.toFixed(2)] is the sign followed by the
    magnitude rounded to hundredths, written with two decimals. *)
Lemma toFixed_2_shape (x : Q) :
  Qabs x < inject_Z (10 ^ 21) ->
  exists body,
    toFixed 2 (Fin x) = (if Qlt_bool x 0 then lit "-" else []) ++ body
    /\ two_decimals body (inject_Z (Qfloor (Qabs x * 100 + (1 # 2))) / 100).
Proof.
  intros Hbig. unfold toFixed.
  assert (Hle : Qle_bool (inject_Z (10 ^ 21)) (Qabs x) = false)
    by now apply Qle_bool_false_iff.
  rewrite Hle. eexists. split; [reflexivity|].
  change (inject_Z (10 ^ Z.of_nat 2)) with 100.
  set (z := Qfloor (Qabs x * 100 + (1 # 2))).
  assert (Hz : (0 <= z)%Z).
  { apply Qfloor_nonneg. pose proof (Qabs_nonneg x). lra. }
  destruct (digits_spec (Z.to_N z)) as [_ [Hdig Hval]].
  destruct (pad_zeros_spec (2 + 1) (digits (Z.to_N z))) as [Hlen [Hpad Hpdig]].
  specialize (Hpdig Hdig). rewrite Hval in Hpad.
  set (m := pad_zeros (2 + 1) (digits (Z.to_N z))) in *.
  set (k := List.length m) in *.
  exists (firstn (k - 2) m), (skipn (k - 2) m).
  assert (Hsplit : firstn (k - 2) m ++ skipn (k - 2) m = m)
    by apply firstn_skipn.
  assert (Hfp : List.length (skipn (k - 2) m) = 2%nat).
  { rewrite length_skipn. fold k. lia. }
  rewrite <- Hsplit in Hpdig, Hpad.
  rewrite forallb_app in Hpdig. apply andb_true_iff in Hpdig.
  destruct Hpdig as [Hip Hfpd].
  rewrite digits_value_app, Hfp in Hpad.
  change (10 ^ N.of_nat 2)%N with 100%N in Hpad.
  repeat split; auto.
  - intro E. apply (f_equal (@List.length N)) in E.
    rewrite length_firstn in E. fold k in E. simpl in E. lia.
  - set (vi := digits_value (firstn (k - 2) m)) in *.
    set (vf := digits_value (skipn (k - 2) m)) in *.
    assert (Ez : z = (Z.of_N vi * 100 + Z.of_N vf)%Z) by lia.
    rewrite Ez, inject_Z_plus, inject_Z_mult.
    change (inject_Z 100) with 100. field.
Qed.


(** [parseFloat] reads back from the string of [x.toFixed(2)] the value
    that [Num.parseFloat_toFixed] gives: on NaN and the infinities, and on
    every finite [x] below 10^21 in magnitude. *)
Lemma parseFloat_toFixed_2 (x : number) :
  (forall q, x = Fin q -> Qabs q < inject_Z (10 ^ 21)) ->
  same_number (parseFloat (toFixed 2 x)) (Num.parseFloat_toFixed 2 x).
Proof.
  intro Hrange. destruct x as [q | | |]; try exact I.
  specialize (Hrange q eq_refl).
  destruct (toFixed_2_shape q Hrange) as [body [E Hbody]].
  assert (Hle : Qle_bool (inject_Z (10 ^ 21)) (Qabs q) = false)
    by now apply Qle_bool_false_iff.
  unfold Num.parseFloat_toFixed, Num.round_decimals. rewrite Hle, E.
  change (inject_Z (10 ^ Z.of_nat 2)) with 100.
  destruct Hbody as [ip [fp [-> [Hne [Hip [Hlen [Hfp Hv]]]]]]].
  destruct ip as [| c ip]; [contradiction|].
  pose proof (@first_digit_plain c ip Hip) as [Hws [Hminus [Hplus Hinf]]].
  assert (Hparse : forall neg,
    parse_decimal neg ((c :: ip) ++ lit "." ++ fp)
    = Fin (let v := (inject_Z (Z.of_N (digits_value (c :: ip)))
                     + inject_Z (Z.of_N (digits_value fp)) / 100) * 1 in
           if neg then - v else v)).
  { intro neg. unfold parse_decimal.
    change (starts_with (lit "Infinity") ((c :: ip) ++ lit "." ++ fp))
      with (N.eqb 73 c && starts_with (lit "nfinity") (ip ++ lit "." ++ fp)).
    rewrite Hinf. cbn [andb].
    rewrite (@span_digits_app (c :: ip) (lit "." ++ fp) Hip) by reflexivity.
    change (lit "." ++ fp) with (unit_of_ascii "." :: fp). cbv iota.
    rewrite N.eqb_refl.
    rewrite <- (app_nil_r fp) at 1.
    rewrite (@span_digits_app fp [] Hfp) by exact I.
    rewrite Hlen. reflexivity. }
  destruct (Qlt_bool q 0).
  - unfold parseFloat. change (lit "-" ++ (c :: ip) ++ lit "." ++ fp)
      with (unit_of_ascii "-" :: (c :: ip) ++ lit "." ++ fp).
    cbn [trimStart]. change (is_whitespace (unit_of_ascii "-")) with false.
    cbv iota. unfold parse_sign. rewrite N.eqb_refl, Hparse.
    cbv zeta. unfold same_number. rewrite Hv. ring.
  - unfold parseFloat. cbn [app trimStart]. rewrite Hws.
    unfold parse_sign. rewrite Hminus, Hplus.
    change (c :: ip ++ lit "." ++ fp) with ((c :: ip) ++ lit "." ++ fp).
    rewrite Hparse. cbv zeta. unfold same_number. rewrite Hv. ring.
Qed.

End Formatting.

(* ----------------------------------------------------------------- *)
(** ** Digit grouping *)











(* ----------------------------------------------------------------- *)
(** ** formatDar *)


Section FormatDar.

Context {H : Host}.

Lemma formatDar_cases (amount : number) (options : option FormatOptions) :
  formatDar amount options
  = if compact_set options then
      if Num.ge amount (Fin 1000000) then
        toFixed 2 (Num.div amount (Fin 1000000)) ++ lit "M" ++ symbol_of options
      else if Num.ge amount (Fin 1000) then
        toFixed 2 (Num.div amount (Fin 1000)) ++ lit "K" ++ symbol_of options
      else toLocaleString_enUS amount ++ symbol_of options
    else toLocaleString_enUS amount ++ symbol_of options.
Proof.
  destruct options as [[[[|] |] [[|] |]] |]; reflexivity.
Qed.



End FormatDar.



(* ----------------------------------------------------------------- *)
(** ** The examples of the documentation *)

Example darToEur_examples :
  returns (darToEur (Fin 1000) None) (Fin 10)
  /\ returns (darToEur (Fin 500) (Some (Fin (2 # 100)))) (Fin 10)
  /\ returns (eurToDar (Fin 10) None) (Fin 1000).
Proof. repeat split. Qed.

Example calcReferralReward_examples :
  calcReferralReward (Fin 1) (Fin 100) = Num.of_Z 100
  /\ calcReferralReward (Fin 2) (Fin 100) = Num.of_Z 30
  /\ calcReferralReward (Fin 3) (Fin 100) = Num.of_Z 10
  /\ calcReferralReward (Fin 4) (Fin 100) = Num.of_Z 0.
Proof. repeat split. Qed.

Example validateFrenchVAT_example :
  validateFrenchVAT (H := reference_host) (lit "FR12345678901") = ok
  /\ valid (validateFrenchVAT (H := reference_host) (lit "FR1234567890"))
     = false.
Proof. split; reflexivity. Qed.

Example validateDarBudget_examples :
  validateDarBudget (H := reference_host) (Fin 5000) None None = ok
  /\ validateDarBudget (H := reference_host) (Fin 50) None None
     = failure (lit "Minimum budget is 100 DAR")
  /\ validateDarBudget (H := reference_host) (Fin (inject_Z (10 ^ 8))) None None
     = failure (lit "Maximum budget is 10,000,000 DAR")
  /\ validateDarBudget (H := reference_host) (Fin (15 # 10)) None None
     = failure (lit "DAR amount must be a whole number").
Proof. repeat split. Qed.

(* ================================================================= *)
(** * Further properties of the code *)

(** ** validateSiret: what the checksum detects *)

Lemma is_digit_not_whitespace (c : N) :
  is_digit c = true -> is_whitespace c = false.
Proof.
  intro Hc. apply (@first_digit_plain c []). cbn [forallb]. now rewrite Hc.
Qed.

Lemma remove_whitespace_digit (pre post : jsstring) (c : N) :
  is_digit c = true ->
  remove_whitespace (pre ++ c :: post)
  = remove_whitespace pre ++ c :: remove_whitespace post.
Proof.
  intro Hc. unfold remove_whitespace. rewrite filter_app. cbn [filter].
  now rewrite (is_digit_not_whitespace c Hc).
Qed.

Lemma remove_whitespace_digit_cons (post : jsstring) (c : N) :
  is_digit c = true ->
  remove_whitespace (c :: post) = c :: remove_whitespace post.
Proof. intro Hc. exact (@remove_whitespace_digit [] post c Hc). Qed.

Lemma remove_whitespace_digits (s : jsstring) :
  forallb is_digit s = true -> remove_whitespace s = s.
Proof.
  induction s as [| c s IH]; cbn [forallb]; intro E; [reflexivity|].
  apply andb_true_iff in E. destruct E as [Hc Hs].
  unfold remove_whitespace in *. cbn [filter].
  now rewrite (is_digit_not_whitespace c Hc), (IH Hs).
Qed.

(** validateSiret accepts exactly when the input without its whitespace is
    14 digits whose adjusted sum is a multiple of 10. *)
Lemma validateSiret_ok_iff (siret : jsstring) :
  validateSiret siret = ok
  <-> List.length (remove_whitespace siret) = 14%nat
      /\ forallb is_digit (remove_whitespace siret) = true
      /\ (luhn_sum 0 (map digit_of_unit (remove_whitespace siret)) mod 10
          = 0)%Z.
Proof.
  unfold validateSiret. set (cleaned := remove_whitespace siret).
  rewrite regex_test_Times_Class.
  change (forallb (in_class class_d) cleaned) with (forallb is_digit cleaned).
  destruct (Nat.eqb_spec (List.length cleaned) 14) as [El | El].
  - destruct (forallb is_digit cleaned) eqn:Es; cbn [andb negb].
    + pose proof (siret_loop cleaned Es [] 0) as Hloop.
      rewrite El in Hloop. simpl app in Hloop. simpl List.length in Hloop.
      rewrite Hloop. unfold rem10_nonzero.
      rewrite Z.add_0_l, Z.rem_mod_nonneg
        by (try apply luhn_sum_nonneg; auto; lia).
      destruct (Z.eqb_spec (luhn_sum 0 (map digit_of_unit cleaned) mod 10) 0)
        as [E | E]; cbn [negb].
      * split; auto.
      * split; [discriminate|]. intros [_ [_ E']]. contradiction.
    + split; [discriminate|]. intros [_ [E' _]]. discriminate.
  - cbn [andb negb]. split; [discriminate|]. intros [E' _]. contradiction.
Qed.

(** When the stripped input is 14 digits the only failure is the checksum. *)
Lemma validateSiret_checksum_failure (siret : jsstring) :
  List.length (remove_whitespace siret) = 14%nat ->
  forallb is_digit (remove_whitespace siret) = true ->
  (luhn_sum 0 (map digit_of_unit (remove_whitespace siret)) mod 10 <> 0)%Z ->
  validateSiret siret = failure (lit "Invalid SIRET checksum").
Proof.
  intros El Es Hsum. unfold validateSiret.
  set (cleaned := remove_whitespace siret) in *.
  rewrite regex_test_Times_Class.
  change (forallb (in_class class_d) cleaned) with (forallb is_digit cleaned).
  rewrite El, Es. cbn [Nat.eqb andb negb].
  pose proof (siret_loop cleaned Es [] 0) as Hloop.
  rewrite El in Hloop. simpl app in Hloop. simpl List.length in Hloop.
  rewrite Hloop. unfold rem10_nonzero.
  rewrite Z.add_0_l, Z.rem_mod_nonneg
    by (try apply luhn_sum_nonneg; auto; lia).
  apply Z.eqb_neq in Hsum. now rewrite Hsum.
Qed.

Lemma luhn_sum_app (l1 l2 : list Z) :
  forall i,
    luhn_sum i (l1 ++ l2)
    = (luhn_sum i l1 + luhn_sum (i + List.length l1) l2)%Z.
Proof.
  induction l1 as [| d l1 IH]; intro i; cbn [app luhn_sum List.length].
  - now rewrite Nat.add_0_r.
  - rewrite IH. replace (S i + List.length l1)%nat
      with (i + S (List.length l1))%nat by lia. lia.
Qed.

Lemma digit_of_unit_range (c : N) :
  is_digit c = true -> (0 <= digit_of_unit c <= 9)%Z.
Proof.
  intro Hc. apply is_digit_bounds in Hc. unfold digit_of_unit. lia.
Qed.

Lemma digit_of_unit_inj (c c' : N) :
  is_digit c = true -> is_digit c' = true ->
  digit_of_unit c = digit_of_unit c' -> c = c'.
Proof.
  intros Hc Hc' E. apply is_digit_bounds in Hc, Hc'.
  unfold digit_of_unit in E. lia.
Qed.

(** Two different digits at the same position never give sums that are
    both multiples of 10. *)
Lemma luhn_adjust_separates (i : nat) (d d' s : Z) :
  (0 <= d <= 9)%Z -> (0 <= d' <= 9)%Z -> d <> d' ->
  ((s + luhn_adjust i d) mod 10 = 0)%Z ->
  ((s + luhn_adjust i d') mod 10 <> 0)%Z.
Proof.
  intros Hd Hd' Hne. unfold luhn_adjust.
  destruct (Nat.even i); [|lia].
  destruct (Z.ltb_spec 9 (2 * d)), (Z.ltb_spec 9 (2 * d')); lia.
Qed.

(** Replacing one digit of an accepted SIRET by a different digit gives a
    number that fails the checksum, wherever whitespace stands. *)
Theorem validateSiret_detects_substitution
  (pre post : jsstring) (c c' : N) :
  is_digit c = true -> is_digit c' = true -> c <> c' ->
  validateSiret (pre ++ c :: post) = ok ->
  validateSiret (pre ++ c' :: post) = failure (lit "Invalid SIRET checksum").
Proof.
  intros Hc Hc' Hne Hok.
  apply validateSiret_ok_iff in Hok. destruct Hok as [El [Es Hsum]].
  rewrite (@remove_whitespace_digit pre post c Hc) in El, Es, Hsum.
  apply validateSiret_checksum_failure;
    rewrite (@remove_whitespace_digit pre post c' Hc').
  - rewrite length_app in *. exact El.
  - rewrite forallb_app in *. cbn [forallb] in *. rewrite Hc' in *.
    now rewrite Hc in Es.
  - rewrite map_app, luhn_sum_app in *. cbn [map luhn_sum] in *.
    set (i := (0 + List.length (map digit_of_unit (remove_whitespace pre)))%nat)
      in *.
    pose proof (@digit_of_unit_range c Hc) as Hd.
    pose proof (@digit_of_unit_range c' Hc') as Hd'.
    assert (Hdd : digit_of_unit c <> digit_of_unit c').
    { intro E. apply Hne. now apply digit_of_unit_inj. }
    set (A := luhn_sum 0 (map digit_of_unit (remove_whitespace pre))) in *.
    set (B := luhn_sum (S i) (map digit_of_unit (remove_whitespace post))) in *.
    replace (A + (luhn_adjust i (digit_of_unit c') + B))%Z
      with (A + B + luhn_adjust i (digit_of_unit c'))%Z by lia.
    replace (A + (luhn_adjust i (digit_of_unit c) + B))%Z
      with (A + B + luhn_adjust i (digit_of_unit c))%Z in Hsum by lia.
    now apply (@luhn_adjust_separates i (digit_of_unit c)).
Qed.

Lemma validateSiret_detects_substitution_witness :
  validateSiret (lit "732 829 320 00075")
  = failure (lit "Invalid SIRET checksum").
Proof.
  apply (@validateSiret_detects_substitution
           (lit "732 829 320 0007") [] (unit_of_ascii "4") (unit_of_ascii "5"));
    [reflexivity | reflexivity | discriminate | reflexivity].
Defined.

(** For two digits at neighbouring positions, exchanging them keeps the sum
    a multiple of 10 exactly when they are equal or are 0 and 9. *)
Lemma luhn_adjust_exchange (i : nat) (d e s : Z) :
  (0 <= d <= 9)%Z -> (0 <= e <= 9)%Z ->
  ((s + luhn_adjust i d + luhn_adjust (S i) e) mod 10 = 0)%Z ->
  ((s + luhn_adjust i e + luhn_adjust (S i) d) mod 10 = 0)%Z
  <-> (d = e \/ (d = 0 /\ e = 9) \/ (d = 9 /\ e = 0))%Z.
Proof.
  intros Hd He. unfold luhn_adjust.
  rewrite Nat.even_succ, <- Nat.negb_even.
  destruct (Nat.even i); cbn [negb];
    destruct (Z.ltb_spec 9 (2 * d)), (Z.ltb_spec 9 (2 * e)); lia.
Qed.

(** Exchanging two neighbouring digits of an accepted SIRET is detected,
    except when the two digits are equal or are 0 and 9. *)
Theorem validateSiret_transposition (pre post : jsstring) (a b : N) :
  is_digit a = true -> is_digit b = true ->
  validateSiret (pre ++ a :: b :: post) = ok ->
  validateSiret (pre ++ b :: a :: post) = ok
  <-> (a = b
       \/ (a = unit_of_ascii "0" /\ b = unit_of_ascii "9")
       \/ (a = unit_of_ascii "9" /\ b = unit_of_ascii "0")).
Proof.
  intros Ha Hb Hok.
  apply validateSiret_ok_iff in Hok. destruct Hok as [El [Es Hsum]].
  rewrite validateSiret_ok_iff.
  rewrite (@remove_whitespace_digit pre (b :: post) a Ha) in El, Es, Hsum.
  rewrite (@remove_whitespace_digit pre (a :: post) b Hb).
  rewrite (@remove_whitespace_digit_cons post b Hb) in El, Es, Hsum.
  rewrite (@remove_whitespace_digit_cons post a Ha).
  rewrite length_app in *. rewrite forallb_app in *.
  cbn [List.length forallb] in *. rewrite Ha, Hb in *.
  rewrite map_app, luhn_sum_app in *. cbn [map luhn_sum] in *.
  set (i := (0 + List.length (map digit_of_unit (remove_whitespace pre)))%nat)
    in *.
  set (A := luhn_sum 0 (map digit_of_unit (remove_whitespace pre))) in *.
  set (B := luhn_sum (S (S i)) (map digit_of_unit (remove_whitespace post)))
    in *.
  pose proof (@digit_of_unit_range a Ha) as Hda.
  pose proof (@digit_of_unit_range b Hb) as Hdb.
  replace (A + (luhn_adjust i (digit_of_unit a)
                + (luhn_adjust (S i) (digit_of_unit b) + B)))%Z
    with (A + B + luhn_adjust i (digit_of_unit a)
          + luhn_adjust (S i) (digit_of_unit b))%Z in Hsum by lia.
  replace (A + (luhn_adjust i (digit_of_unit b)
                + (luhn_adjust (S i) (digit_of_unit a) + B)))%Z
    with (A + B + luhn_adjust i (digit_of_unit b)
          + luhn_adjust (S i) (digit_of_unit a))%Z by lia.
  pose proof (@luhn_adjust_exchange i _ _ _ Hda Hdb Hsum) as Hex.
  apply is_digit_bounds in Ha, Hb.
  change (unit_of_ascii "0") with 48%N. change (unit_of_ascii "9") with 57%N.
  unfold digit_of_unit in Hex.
  split.
  - intros [_ [_ Hsum']]. apply Hex in Hsum'. lia.
  - intro Hcase. split; [exact El|]. split; [exact Es|]. apply Hex. lia.
Qed.

Lemma validateSiret_transposition_witness :
  validateSiret (lit "732 829 320 00074") = ok
  /\ (validateSiret (lit "372 829 320 00074") = ok
      <-> (unit_of_ascii "7" = unit_of_ascii "3"
           \/ (unit_of_ascii "7" = unit_of_ascii "0"
               /\ unit_of_ascii "3" = unit_of_ascii "9")
           \/ (unit_of_ascii "7" = unit_of_ascii "9"
               /\ unit_of_ascii "3" = unit_of_ascii "0"))).
Proof.
  split; [reflexivity|].
  apply (@validateSiret_transposition [] (lit "2 829 320 00074")
           (unit_of_ascii "7") (unit_of_ascii "3"));
    reflexivity.
Defined.

(** Thirteen digits have exactly one continuation by a code unit that
    validateSiret accepts, and it is a digit. *)
Theorem validateSiret_check_digit (p : jsstring) :
  List.length p = 13%nat -> forallb is_digit p = true ->
  exists c,
    is_digit c = true
    /\ validateSiret (p ++ [c]) = ok
    /\ forall c', validateSiret (p ++ [c']) = ok -> c' = c.
Proof.
  intros Hlen Hp.
  set (s := luhn_sum 0 (map digit_of_unit p)).
  assert (Hs : (0 <= s)%Z) by now apply luhn_sum_nonneg.
  set (d := ((- s) mod 10)%Z).
  assert (Hd : (0 <= d <= 9)%Z) by (unfold d; lia).
  set (c := (48 + Z.to_N d)%N).
  assert (Hc : is_digit c = true) by (apply is_digit_bounds; unfold c; lia).
  assert (Hsum : forall x, is_digit x = true ->
            luhn_sum 0 (map digit_of_unit (remove_whitespace (p ++ [x])))
            = (s + digit_of_unit x)%Z).
  { intros x Hx. rewrite (@remove_whitespace_digit p [] x Hx).
    rewrite (remove_whitespace_digits p Hp).
    change (remove_whitespace []) with (@nil N).
    rewrite map_app, luhn_sum_app, length_map, Hlen. cbn [map luhn_sum].
    unfold luhn_adjust. change (Nat.even (0 + 13)) with false. cbv iota.
    fold s. lia. }
  assert (Hshape : forall x, is_digit x = true ->
            List.length (remove_whitespace (p ++ [x])) = 14%nat
            /\ forallb is_digit (remove_whitespace (p ++ [x])) = true).
  { intros x Hx. rewrite (@remove_whitespace_digit p [] x Hx).
    rewrite (remove_whitespace_digits p Hp).
    change (remove_whitespace []) with (@nil N).
    rewrite length_app, forallb_app, Hlen, Hp. cbn [List.length forallb].
    now rewrite Hx. }
  exists c. split; [exact Hc|]. split.
  - apply validateSiret_ok_iff. destruct (Hshape c Hc) as [El Es].
    split; [exact El|]. split; [exact Es|].
    rewrite (Hsum c Hc). unfold digit_of_unit, c, d. lia.
  - intros c' Hok. apply validateSiret_ok_iff in Hok.
    destruct Hok as [El [Es Hsum']].
    assert (Hc' : is_digit c' = true).
    { destruct (is_whitespace c') eqn:W.
      - exfalso. unfold remove_whitespace in El. rewrite filter_app in El.
        cbn [filter] in El. rewrite W in El. cbn [negb] in El.
        rewrite app_nil_r in El. fold (remove_whitespace p) in El.
        rewrite (remove_whitespace_digits p Hp) in El. lia.
      - unfold remove_whitespace in Es. rewrite filter_app in Es.
        cbn [filter] in Es. rewrite W in Es. cbn [negb] in Es.
        rewrite forallb_app in Es. apply andb_true_iff in Es.
        destruct Es as [_ Es]. cbn [forallb] in Es.
        now rewrite andb_true_r in Es. }
    rewrite (Hsum c' Hc') in Hsum'.
    pose proof (@digit_of_unit_range c' Hc') as Hr.
    apply is_digit_bounds in Hc'. unfold digit_of_unit in *.
    unfold c, d. lia.
Qed.

Lemma validateSiret_check_digit_witness :
  exists c,
    is_digit c = true
    /\ validateSiret (lit "7328293200007" ++ [c]) = ok
    /\ forall c', validateSiret (lit "7328293200007" ++ [c']) = ok -> c' = c.
Proof.
  apply (@validateSiret_check_digit (lit "7328293200007")); reflexivity.
Defined.

(* ----------------------------------------------------------------- *)
(** ** validateFrenchVAT: what is accepted *)

Lemma lang_chr (a : ascii) (s : jsstring) :
  lang (Class [chr a]) s <-> s = [unit_of_ascii a].
Proof.
  split.
  - intro L. apply lang_Class_inv in L. destruct L as [c [-> Hc]].
    apply existsb_exists in Hc. destruct Hc as [[lo hi] [[Hin | []] Hr]].
    injection Hin as <- <-. apply in_range_spec in Hr.
    f_equal. apply N.le_antisymm; tauto.
  - intros ->. constructor. unfold in_class, chr. cbn [existsb].
    rewrite orb_false_r. apply in_range_spec. lia.
Qed.

(** The pattern test of validateFrenchVAT accepts exactly the strings of
    the VAT shape. *)
Lemma vatRegex_accepts (s : jsstring) :
  regex_test vatRegex s = true <-> vat_shape s.
Proof.
  rewrite regex_test_lang. unfold vatRegex, vat_shape. cbn [Lit]. split.
  - intro T.
    apply lang_Seq_inv in T. destruct T as [fr [s1 [-> [Lfr T]]]].
    apply lang_Seq_inv in T. destruct T as [key [siren [-> [Lkey Lsiren]]]].
    apply lang_Seq_inv in Lfr. destruct Lfr as [f [s2 [-> [Lf Lr]]]].
    apply lang_Seq_inv in Lr. destruct Lr as [r [e [-> [Lr Le]]]].
    apply lang_chr in Lf, Lr. subst f r. inversion Le; subst.
    apply lang_Times_Class in Lkey, Lsiren.
    destruct Lkey as [Hk1 Hk2]. destruct Lsiren as [Hs1 Hs2].
    exists key, siren. repeat split; auto.
  - intros [key [siren [-> [Hk1 [Hk2 [Hs1 Hs2]]]]]].
    constructor.
    + change (lit "FR")
        with ([unit_of_ascii "F"] ++ [unit_of_ascii "R"] ++ @nil N).
      constructor; [now apply lang_chr|].
      constructor; [now apply lang_chr | constructor].
    + constructor; apply lang_Times_Class; auto.
Qed.

Lemma remove_whitespace_basic_latin (s : jsstring) :
  forallb is_basic_latin s = true ->
  forallb is_basic_latin (remove_whitespace s) = true.
Proof.
  intro Hs. rewrite forallb_forall in *. intros c Hc.
  apply Hs. unfold remove_whitespace in Hc. now apply filter_In in Hc.
Qed.

Section FrenchVAT.

Context {H : Host}.

(** On a host whose toUpperCase maps a-z to A-Z on Basic Latin, a Basic
    Latin input is accepted by validateFrenchVAT exactly when, whitespace
    removed and letters capitalised, it is "FR", two letters or digits and
    nine digits; no check of the key against the nine digits is made. *)
Theorem validateFrenchVAT_accepts (vat : jsstring) :
  upper_basic_latin H ->
  forallb is_basic_latin vat = true ->
  validateFrenchVAT vat = ok
  <-> vat_shape (map upper_unit (remove_whitespace vat)).
Proof.
  intros Hupper Hvat. unfold validateFrenchVAT.
  rewrite (Hupper _ (remove_whitespace_basic_latin vat Hvat)).
  rewrite <- vatRegex_accepts.
  destruct (regex_test vatRegex (map upper_unit (remove_whitespace vat)));
    cbn [negb]; split; try reflexivity; discriminate.
Qed.

End FrenchVAT.

Lemma validateFrenchVAT_accepts_witness :
  validateFrenchVAT (H := reference_host) (lit "fr 1a 345 678 901") = ok
  <-> vat_shape (map upper_unit (remove_whitespace (lit "fr 1a 345 678 901"))).
Proof.
  apply (@validateFrenchVAT_accepts reference_host (lit "fr 1a 345 678 901"));
    [intros s _; reflexivity | reflexivity].
Defined.

(* ----------------------------------------------------------------- *)
(** ** validateBusinessEmail: what an accepted address looks like *)

(** The code units of the pattern's classes are printable Basic Latin
    other than "@". *)
Lemma email_class_bounds (cls : list (N * N)) (c : N) :
  incl cls [ rng "a" "z"; rng "A" "Z"; rng "0" "9";
             chr "."; chr "_"; chr "%"; chr "+"; chr "-" ] ->
  in_class cls c = true -> (37 <= c <= 122 /\ c <> 64)%N.
Proof.
  intros Hincl E.
  apply existsb_exists in E. destruct E as [[lo hi] [Hin Hr]].
  apply in_range_spec in Hr. apply Hincl in Hin.
  simpl in Hin. unfold rng, chr in Hin.
  repeat (destruct Hin as [Hin | Hin];
          [injection Hin as <- <-; cbv - [N.le N.lt] in Hr; lia|]).
  destruct Hin.
Qed.

Lemma printable_not_whitespace (c : N) :
  (37 <= c <= 122)%N -> is_whitespace c = false.
Proof.
  intro Hc. destruct (is_whitespace c) eqn:W; [|reflexivity].
  apply existsb_exists in W. destruct W as [[lo hi] [Hin Hr]].
  apply in_range_spec in Hr. simpl in Hin.
  repeat (destruct Hin as [Hin | Hin]; [injection Hin as <- <-; lia|]).
  destruct Hin.
Qed.

(** A well-formed address is printable Basic Latin with a single "@". *)
Lemma well_formed_address_plain (email : jsstring) :
  well_formed_address email ->
  forallb is_basic_latin email = true
  /\ forallb (fun c => negb (is_whitespace c)) email = true
  /\ count_occ N.eq_dec email (unit_of_ascii "@") = 1%nat.
Proof.
  intros [local [dom [tld [-> [_ [Hl [_ [Hd [_ Ht]]]]]]]]].
  assert (Hpiece : forall cls s,
            incl cls [ rng "a" "z"; rng "A" "Z"; rng "0" "9";
                       chr "."; chr "_"; chr "%"; chr "+"; chr "-" ] ->
            forallb (in_class cls) s = true ->
            forallb is_basic_latin s = true
            /\ forallb (fun c => negb (is_whitespace c)) s = true
            /\ count_occ N.eq_dec s (unit_of_ascii "@") = 0%nat).
  { intros cls s Hincl Hs. rewrite forallb_forall in Hs.
    assert (Hb : forall c, In c s -> (37 <= c <= 122 /\ c <> 64)%N).
    { intros c Hc. eapply email_class_bounds; eauto. }
    split; [|split].
    - apply forallb_forall. intros c Hc. apply N.ltb_lt.
      specialize (Hb c Hc). lia.
    - apply forallb_forall. intros c Hc. apply negb_true_iff.
      apply printable_not_whitespace. specialize (Hb c Hc). lia.
    - apply count_occ_not_In. intro Hin. now apply Hb in Hin. }
  destruct (Hpiece _ local (incl_refl _) Hl) as [Hl1 [Hl2 Hl3]].
  assert (Hid : incl [ rng "a" "z"; rng "A" "Z"; rng "0" "9";
                       chr "."; chr "-" ]
                     [ rng "a" "z"; rng "A" "Z"; rng "0" "9";
                       chr "."; chr "_"; chr "%"; chr "+"; chr "-" ])
    by (intros x Hx; simpl in *; tauto).
  assert (Hit : incl [ rng "a" "z"; rng "A" "Z" ]
                     [ rng "a" "z"; rng "A" "Z"; rng "0" "9";
                       chr "."; chr "_"; chr "%"; chr "+"; chr "-" ])
    by (intros x Hx; simpl in *; tauto).
  destruct (Hpiece _ dom Hid Hd) as [Hd1 [Hd2 Hd3]].
  destruct (Hpiece _ tld Hit Ht) as [Ht1 [Ht2 Ht3]].
  change (lit "@") with [unit_of_ascii "@"].
  change (lit ".") with [unit_of_ascii "."].
  rewrite !forallb_app, !count_occ_app, Hl1, Hl2, Hl3, Hd1, Hd2, Hd3,
    Ht1, Ht2, Ht3.
  repeat split.
Qed.

Lemma well_formed_address_not_blank (email : jsstring) :
  well_formed_address email -> is_blank email = false.
Proof.
  intro Hwf. apply well_formed_address_plain in Hwf.
  destruct Hwf as [_ [Hws Hat]]. unfold is_blank.
  destruct email as [| c email].
  - discriminate Hat.
  - cbn [forallb] in *. apply andb_true_iff in Hws.
    destruct Hws as [Hc _]. apply negb_true_iff in Hc. now rewrite Hc.
Qed.

Section BusinessEmailAcceptance.

Context {H : Host}.

(** Whatever the flag and the host, an address that validateBusinessEmail
    accepts is accepted with free providers allowed, is well formed, and so
    holds only Basic Latin code units, no whitespace (leading and trailing
    spaces are not trimmed away) and exactly one "@". *)
Theorem validateBusinessEmail_accepted_plain
  (email : jsstring) (allowFreeProviders : option bool) :
  validateBusinessEmail email allowFreeProviders = ok ->
  validateBusinessEmail email (Some true) = ok
  /\ well_formed_address email
  /\ forallb is_basic_latin email = true
  /\ forallb (fun c => negb (is_whitespace c)) email = true
  /\ count_occ N.eq_dec email (unit_of_ascii "@") = 1%nat.
Proof.
  unfold validateBusinessEmail. rewrite blank_iff_trim_empty.
  destruct (is_blank email); [discriminate|].
  destruct (regex_test emailRegex email) eqn:T; [|discriminate].
  intros _. split; [reflexivity|].
  apply emailRegex_accepts in T. split; [exact T|].
  now apply well_formed_address_plain.
Qed.

(** With free providers allowed, validateBusinessEmail accepts exactly the
    well-formed addresses. *)
Theorem validateBusinessEmail_allow_free (email : jsstring) :
  validateBusinessEmail email (Some true) = ok <-> well_formed_address email.
Proof.
  unfold validateBusinessEmail. rewrite blank_iff_trim_empty.
  rewrite <- emailRegex_accepts. split.
  - destruct (is_blank email); [discriminate|].
    destruct (regex_test emailRegex email); [reflexivity|discriminate].
  - intro T. pose proof T as Hwf. apply emailRegex_accepts in Hwf.
    rewrite (well_formed_address_not_blank Hwf), T. reflexivity.
Qed.

End BusinessEmailAcceptance.

Lemma validateBusinessEmail_accepted_plain_witness :
  validateBusinessEmail (H := reference_host) (lit "ceo@acme.com") (Some true)
  = ok
  /\ well_formed_address (lit "ceo@acme.com")
  /\ forallb is_basic_latin (lit "ceo@acme.com") = true
  /\ forallb (fun c => negb (is_whitespace c)) (lit "ceo@acme.com") = true
  /\ count_occ N.eq_dec (lit "ceo@acme.com") (unit_of_ascii "@") = 1%nat.
Proof.
  apply (@validateBusinessEmail_accepted_plain reference_host
           (lit "ceo@acme.com") None).
  reflexivity.
Defined.

(* ----------------------------------------------------------------- *)
(** ** validateCampaignDates: the accepted window *)


Section CampaignWindow.

Context {H : Host}.


(** A campaign accepted when the clock reads [now] is accepted at every
    earlier reading of the clock. *)
Theorem validateCampaignDates_earlier_clock
  (now now' : Z) (startsAt endsAt : DateOrString) (mn mx : option number) :
  (now' <= now)%Z ->
  validateCampaignDates now startsAt endsAt mn mx = ok ->
  validateCampaignDates now' startsAt endsAt mn mx = ok.
Proof.
  intro Hnow. unfold validateCampaignDates.
  destruct (new_Date startsAt) as [s |]; [|discriminate].
  destruct (new_Date endsAt) as [e |]; [|discriminate].
  cbn [getTime Num.isNaN Num.of_Z Num.lt].
  rewrite !Qlt_bool_inject_Z.
  destruct (Z.ltb_spec s now) as [Hpast | Hfuture]; [discriminate|].
  destruct (Z.ltb_spec s now') as [Hpast' | _]; [lia|].
  trivial.
Qed.

(** With finite bounds (given, or the defaults 100 and 10,000,000) an
    amount is accepted by validateDarBudget exactly when it is a whole
    number between the bounds, both included; NaN and the infinities are
    never accepted. *)
Theorem validateDarBudget_accepts
  (amount : number) (mn mx : option number) (lo hi : Q) :
  dflt (Fin 100) mn = Fin lo -> dflt (Fin 10000000) mx = Fin hi ->
  validateDarBudget amount mn mx = ok
  <-> exists z : Z,
        same_number amount (Num.of_Z z) /\ lo <= inject_Z z <= hi.
Proof.
  intros Hlo Hhi. unfold validateDarBudget. rewrite Hlo, Hhi.
  destruct amount as [q | | |]; cbn [Num.isInteger negb];
    try (split; [discriminate | intros [z [[] _]]]).
  unfold Num.gt. cbn [Num.lt].
  destruct (Qeq_bool (inject_Z (Qfloor q)) q) eqn:Hint; cbn [negb].
  - apply Qeq_bool_iff in Hint.
    destruct (Qlt_bool q lo) eqn:Hsmall.
    { split; [discriminate|]. intros [z [Ez Hz]]. change (q == inject_Z z) in Ez.
      apply Qlt_bool_iff in Hsmall. lra. }
    destruct (Qlt_bool hi q) eqn:Hbig.
    { split; [discriminate|]. intros [z [Ez Hz]]. change (q == inject_Z z) in Ez.
      apply Qlt_bool_iff in Hbig. lra. }
    split; [|reflexivity]. intros _.
    apply Qlt_bool_false_iff in Hsmall, Hbig.
    exists (Qfloor q).
    split; [change (q == inject_Z (Qfloor q)); now symmetry | lra].
  - split; [discriminate|]. intros [z [Ez _]]. change (q == inject_Z z) in Ez.
    apply Qeq_bool_false_iff in Hint. exfalso. apply Hint.
    assert (Ef : Qfloor q = z).
    { transitivity (Qfloor (inject_Z z));
        [now apply Qfloor_comp | apply Qfloor_Z]. }
    rewrite Ef. now symmetry.
Qed.

End CampaignWindow.


Lemma validateCampaignDates_earlier_clock_witness :
  validateCampaignDates (H := reference_host) 1893456000000
    (OfDate (Some 1893542400000%Z)) (OfDate (Some 1894406400000%Z)) None None
  = ok.
Proof.
  apply (@validateCampaignDates_earlier_clock reference_host
           1893542400000 1893456000000);
    [discriminate | reflexivity].
Defined.

Lemma validateDarBudget_accepts_witness :
  validateDarBudget (H := reference_host) (Fin 5000) None None = ok
  <-> exists z : Z,
        same_number (Fin 5000) (Num.of_Z z)
        /\ 100 <= inject_Z z <= 10000000.
Proof.
  apply (@validateDarBudget_accepts reference_host (Fin 5000) None None
           100 10000000);
    reflexivity.
Defined.

(* ----------------------------------------------------------------- *)
(** ** darToEur and eurToDar: rounding *)

Lemma Qfloor_unique (x : Q) (z : Z) :
  inject_Z z <= x -> x < inject_Z z + 1 -> Qfloor x = z.
Proof.
  intros Hlo Hhi.
  pose proof (Qfloor_le x) as Hf1. pose proof (Qlt_floor x) as Hf2.
  rewrite inject_Z_plus in Hf2. change (inject_Z 1) with 1 in Hf2.
  assert (H1 : (Qfloor x < z + 1)%Z).
  { rewrite Zlt_Qlt, inject_Z_plus. change (inject_Z 1) with 1. lra. }
  assert (H2 : (z < Qfloor x + 1)%Z).
  { rewrite Zlt_Qlt, inject_Z_plus. change (inject_Z 1) with 1. lra. }
  lia.
Qed.














(* ----------------------------------------------------------------- *)
(** ** calcReferralReward: the tier table *)






(* ----------------------------------------------------------------- *)
(** ** hasSufficientDar: monotonicity *)





(* ----------------------------------------------------------------- *)
(** ** calcCampaignBudget: the two ceilings *)



(* ----------------------------------------------------------------- *)
(** ** formatDar: the edge of the compact forms *)

Section CompactEdge.

Context {H : Host}.

(** With compact set, an amount from 999,995 up to (excluding) 1,000,000 is
    still written in thousands, and its two decimals round up to
    "1000.00K". *)
Theorem formatDar_compact_rounds_up
  (q : Q) (options : option FormatOptions) :
  compact_set options = true -> 999995 <= q -> q < 1000000 ->
  formatDar (Fin q) options = lit "1000.00K" ++ symbol_of options.
Proof.
  intros Hc Hlo Hhi. rewrite formatDar_cases, Hc.
  assert (Hm : Num.ge (Fin q) (Fin 1000000) = false)
    by now apply Qle_bool_false_iff.
  assert (Hk : Num.ge (Fin q) (Fin 1000) = true)
    by (apply Qle_bool_iff; lra).
  rewrite Hm, Hk. cbn [Num.div].
  change (Qeq_bool 1000 0) with false. cbv iota.
  set (x := q / 1000).
  assert (Ex : x * 1000 == q) by (unfold x; field; discriminate).
  assert (Hx : 0 <= x) by lra.
  assert (Hfix : toFixed 2 (Fin x) = lit "1000.00").
  { unfold toFixed.
    assert (Hlt : Qlt_bool x 0 = false) by now apply Qlt_bool_false_iff.
    assert (Hle : Qle_bool (inject_Z (10 ^ 21)) (Qabs x) = false).
    { apply Qle_bool_false_iff. rewrite (Qabs_pos x Hx).
      apply Qlt_trans with 1000; [lra | reflexivity]. }
    rewrite Hlt, Hle.
    change (inject_Z (10 ^ Z.of_nat 2)) with 100.
    rewrite (@Qfloor_unique (Qabs x * 100 + (1 # 2)) 100000)
      by (rewrite (Qabs_pos x Hx); change (inject_Z 100000) with 100000; lra).
    vm_compute. reflexivity. }
  rewrite Hfix. reflexivity.
Qed.

End CompactEdge.

Lemma formatDar_compact_rounds_up_witness :
  formatDar (H := reference_host) (Fin 999999)
    (Some {| compact := Some true; showSymbol := None |})
  = lit "1000.00K"
      ++ symbol_of (Some {| compact := Some true; showSymbol := None |}).
Proof.
  apply (@formatDar_compact_rounds_up reference_host 999999
           (Some {| compact := Some true; showSymbol := None |}));
    [reflexivity | discriminate | reflexivity].
Defined.

(* ----------------------------------------------------------------- *)
(** ** eurToDar composed with darToEur and with validateDarBudget *)






Section ConvertedBudget.

Context {H : Host}.



End ConvertedBudget.

